(** * React.Children: key escaping, tree flattening and the public traversals

    A shallow embedding of [ReactChildren.js] (escape, escapeUserProvidedKey,
    getElementKey, mapIntoArray, mapChildren, countChildren, forEachChildren,
    toArray, onlyChild) and the properties of it that the design document
    states.  JavaScript strings are modelled as [string]; the characters the
    code inspects ('=', ':', '/', '.', '$', '%') are ASCII, so their treatment
    is the same on UTF-16 code units and on bytes. *)

From Stdlib Require Import String Ascii List Bool Arith ZArith Lia.
Import ListNotations.
Local Open Scope string_scope.

(* ================================================================== *)
(** ** Strings *)
(* ================================================================== *)

Module Str.

(** [s.replace(/[...]/g, f)] for a regular expression that matches single
    characters: every character on which [f] is defined is replaced by its
    image, the others are kept. *)
Fixpoint replaceChars (f : ascii -> option string) (s : string) : string :=
  match s with
  | EmptyString => EmptyString
  | String c rest =>
      match f c with
      | Some r => r ++ replaceChars f rest
      | None => String c (replaceChars f rest)
      end
  end.

(** [n] copies of the character [c]. *)
Fixpoint replicate (n : nat) (c : ascii) : string :=
  match n with
  | O => EmptyString
  | S m => String c (replicate m c)
  end.

Definition startsWith (c : ascii) (s : string) : bool :=
  match s with
  | String d _ => Ascii.eqb d c
  | EmptyString => false
  end.

Fixpoint endsWith (c : ascii) (s : string) : bool :=
  match s with
  | EmptyString => false
  | String d EmptyString => Ascii.eqb d c
  | String _ rest => endsWith c rest
  end.

Fixpoint contains (c : ascii) (s : string) : bool :=
  match s with
  | EmptyString => false
  | String d rest => Ascii.eqb d c || contains c rest
  end.

(** Number of occurrences of [c] in [s]. *)
Fixpoint occurrences (c : ascii) (s : string) : nat :=
  match s with
  | EmptyString => 0
  | String d rest => (if Ascii.eqb d c then 1 else 0) + occurrences c rest
  end.

(** [xs.join(sep)]. *)
Fixpoint join (sep : string) (xs : list string) : string :=
  match xs with
  | [] => EmptyString
  | [x] => x
  | x :: rest => x ++ sep ++ join sep rest
  end.

(** Every '=' of [s] is directly followed by '0' or '2'. *)
Fixpoint equalsAreCodes (s : string) : bool :=
  match s with
  | EmptyString => true
  | String c rest =>
      (if Ascii.eqb c "="
       then startsWith "0" rest || startsWith "2" rest
       else true) && equalsAreCodes rest
  end.

(** No two '/' of [s] are adjacent. *)
Fixpoint slashesIsolated (s : string) : bool :=
  match s with
  | EmptyString => true
  | String c rest =>
      negb (Ascii.eqb c "/" && startsWith "/" rest) && slashesIsolated rest
  end.

End Str.

(* ================================================================== *)
(** ** The key escapers *)
(* ================================================================== *)

Definition SEPARATOR : string := ".".
Definition SUBSEPARATOR : string := ":".

(** The table [escaperLookup] of [escape]; the regular expression [/[=:]/g]
    matches exactly the characters the table is defined on. *)
Definition escaperLookup (c : ascii) : option string :=
  if Ascii.eqb c "=" then Some "=0"
  else if Ascii.eqb c ":" then Some "=2"
  else None.

Definition escape (key : string) : string :=
  let escapedString := Str.replaceChars escaperLookup key in
  "$" ++ escapedString.

(** [text.replace(/\/+/g, '$&/')].  The expression [/\/+/g] matches the
    maximal runs of '/', left to right, and ['$&/'] puts the matched run back
    followed by one '/'.  Scanning character by character, that is: a '/'
    that is followed by another '/' is inside a run and is copied; a '/' that
    ends its run is copied and followed by the added '/'. *)
Fixpoint escapeUserProvidedKey (text : string) : string :=
  match text with
  | EmptyString => EmptyString
  | String c rest =>
      if Ascii.eqb c "/" && negb (Str.startsWith "/" rest)
      then String c (String "/" (escapeUserProvidedKey rest))
      else String c (escapeUserProvidedKey rest)
  end.

(** What the design document says of [escapeUserProvidedKey]: each '/' is
    replaced by '//'. *)
Definition doubleEachSlash (raw : string) : string :=
  Str.replaceChars (fun c => if Ascii.eqb c "/" then Some "//" else None) raw.

(** [index.toString(36)] for an array index. *)
Definition digit36 (d : nat) : ascii :=
  nth d (list_ascii_of_string "0123456789abcdefghijklmnopqrstuvwxyz") "0"%char.

Fixpoint toString36_from (fuel n : nat) (acc : string) : string :=
  match fuel with
  | O => acc
  | S fuel' =>
      let acc' := String (digit36 (n mod 36)) acc in
      if (n <? 36)%nat then acc' else toString36_from fuel' (n / 36) acc'
  end.

Definition toString36 (index : nat) : string :=
  toString36_from (S index) index EmptyString.

(* ================================================================== *)
(** ** JavaScript values *)
(* ================================================================== *)

(** What is thrown: an error with its message. *)
Inductive error : Type := Error (message : string).

(** The two values of [$$typeof] that [mapIntoArray] looks for. *)
Inductive symbol : Type := REACT_ELEMENT_TYPE | REACT_PORTAL_TYPE.

(** An element or a portal: its [$$typeof], its [key] ([None] for null) and
    the attributes the traversal never reads (type, ref, props, ...), kept as
    one opaque number. *)
Record element : Type := mkElement {
  dollar_typeof : symbol;
  key : option string;
  attributes : nat
}.

(** The values that can be children.  [VIterable] is an object on which
    [getIteratorFn] returns a function, with the values its iterator yields
    (finitely many).  Any other object is a [VObject], with its string form
    ['' + o] and [Object.keys(o)], or, when the conversion ['' + o] throws
    (an object without a usable [toString] or [valueOf], or one whose
    [toString] throws), a [VUnprintable], with what the conversion throws
    and [Object.keys(o)].  [VFunction] is a function.  Numbers are only
    passed along, never computed with. *)
#[warnings="-register-all"]
Inductive value : Type :=
| VUndefined
| VNull
| VBool (b : bool)
| VNumber (n : Z)
| VString (s : string)
| VElement (e : element)
| VArray (items : list value)
| VIterable (items : list value)
| VObject (str : string) (keys : list string)
| VUnprintable (thrown : error) (keys : list string)
| VFunction.

(** Induction on values, the elements of arrays and iterables included. *)
Section ValueInduction.
Variable P : value -> Prop.
Hypothesis HUndefined : P VUndefined.
Hypothesis HNull : P VNull.
Hypothesis HBool : forall b, P (VBool b).
Hypothesis HNumber : forall n, P (VNumber n).
Hypothesis HString : forall s, P (VString s).
Hypothesis HElement : forall e, P (VElement e).
Hypothesis HArray : forall items, Forall P items -> P (VArray items).
Hypothesis HIterable : forall items, Forall P items -> P (VIterable items).
Hypothesis HObject : forall str keys, P (VObject str keys).
Hypothesis HUnprintable : forall thrown keys, P (VUnprintable thrown keys).
Hypothesis HFunction : P VFunction.

Fixpoint value_nested_ind (v : value) : P v :=
  let all :=
    fix all (items : list value) : Forall P items :=
      match items with
      | [] => Forall_nil P
      | x :: rest => Forall_cons x (value_nested_ind x) (all rest)
      end in
  match v with
  | VUndefined => HUndefined
  | VNull => HNull
  | VBool b => HBool b
  | VNumber n => HNumber n
  | VString s => HString s
  | VElement e => HElement e
  | VArray items => HArray items (all items)
  | VIterable items => HIterable items (all items)
  | VObject str keys => HObject str keys
  | VUnprintable thrown keys => HUnprintable thrown keys
  | VFunction => HFunction
  end.
End ValueInduction.

Inductive jstype : Type :=
| TUndefined | TBoolean | TNumber | TString | TObject | TFunction.

Definition typeof (v : value) : jstype :=
  match v with
  | VUndefined => TUndefined
  | VNull => TObject
  | VBool _ => TBoolean
  | VNumber _ => TNumber
  | VString _ => TString
  | VElement _ | VArray _ | VIterable _ | VObject _ _
  | VUnprintable _ _ => TObject
  | VFunction => TFunction
  end.

(** [v === null] *)
Definition isNull (v : value) : bool :=
  match v with VNull => true | _ => false end.

(** [v == null]: null or undefined. *)
Definition looseNull (v : value) : bool :=
  match v with VNull | VUndefined => true | _ => false end.

(** JavaScript truthiness. *)
Definition truthy (v : value) : bool :=
  match v with
  | VUndefined | VNull => false
  | VBool b => b
  | VNumber n => negb (Z.eqb n 0)
  | VString s => negb (String.eqb s EmptyString)
  | _ => true
  end.

Definition isArray (v : value) : bool :=
  match v with VArray _ => true | _ => false end.

(** [v.key] where it is a string; [None] when it is null or undefined. *)
Definition keyOf (v : value) : option string :=
  match v with VElement e => key e | _ => None end.

(** [v.$$typeof] *)
Definition typeofSymbol (v : value) : option symbol :=
  match v with VElement e => Some (dollar_typeof e) | _ => None end.

(** Modelled from the spec: [isValidElement] of ./ReactElement, which is not
    under src/.  The design document asks of the leaf abstraction a predicate
    that tells whether a value is a recognized leaf, both leaf subvariants
    being treated alike. *)
Definition isValidElement (object : value) : bool :=
  match object with VElement _ => true | _ => false end.

(** Modelled from the spec: [cloneAndReplaceKey] of ./ReactElement, which is
    not under src/: a copy of the leaf with a new own key, every other
    attribute and the type tag preserved. *)
Definition cloneAndReplaceKey (oldElement : value) (newKey : string) : value :=
  match oldElement with
  | VElement e =>
      VElement {| dollar_typeof := dollar_typeof e;
                  key := Some newKey;
                  attributes := attributes e |}
  | other => other
  end.

(** Modelled from the spec: [getIteratorFn] of shared/ReactSymbols, which is
    not under src/: the values an iterable yields, or [None] for a value that
    is not iterable. *)
Definition getIteratorFn (maybeIterable : value) : option (list value) :=
  match maybeIterable with VIterable items => Some items | _ => None end.

(* ================================================================== *)
(** ** Outcomes: return, throw *)
(* ================================================================== *)

Inductive outcome (A : Type) : Type :=
| Return (a : A)
| Throw (e : error)
| OutOfFuel.
Arguments Return {A} a.
Arguments Throw {A} e.
Arguments OutOfFuel {A}.

Definition bind {A B : Type} (m : outcome A) (k : A -> outcome B) : outcome B :=
  match m with
  | Return a => k a
  | Throw e => Throw e
  | OutOfFuel => OutOfFuel
  end.

Notation "'let*' p ':=' m 'in' k" :=
  (bind m (fun p => k))
  (at level 10, p pattern, m at level 100, k at level 200).

(** The message of an invariant: every [%s] of the format is replaced by the
    next argument. *)
Fixpoint formatMessage (format : string) (args : list string) : string :=
  match format with
  | EmptyString => EmptyString
  | String "%" (String "s" rest) =>
      match args with
      | a :: args' => a ++ formatMessage rest args'
      | [] => "undefined" ++ formatMessage rest []
      end
  | String c rest => String c (formatMessage rest args)
  end.

(** Modelled from the spec: [invariant] of shared/invariant, which is not
    under src/: it throws an error carrying the formatted message unless the
    condition holds. *)
Definition invariant (condition : bool) (format : string) (args : list string)
  : outcome unit :=
  if condition then Return tt else Throw (Error (formatMessage format args)).

Definition invalidChildFormat : string :=
  "Objects are not valid as a React child (found: %s). " ++
  "If you meant to render a collection of children, use an array " ++
  "instead.".

Definition onlyChildFormat : string :=
  "React.Children.only expected to receive a single React element child.".

(** The two errors, under the names the design document gives them. *)
Definition InvalidChildType (found : string) : error :=
  Error (formatMessage invalidChildFormat [found]).

Definition NotSingleElement : error :=
  Error (formatMessage onlyChildFormat []).

(** The string form of an object whose conversion to a string succeeds, and
    [Object.keys(v)]; they are read only where [mapIntoArray] rejects a
    value, which is then a [VObject] or a [VUnprintable]. *)
Definition stringOf (v : value) : string :=
  match v with
  | VObject str _ => str
  | VNull => "null"
  | _ => "[object Object]"
  end.

(** ['' + v] (line 213): the conversion of an object to a string, which
    throws for a [VUnprintable]. *)
Definition concatString (v : value) : outcome string :=
  match v with
  | VUnprintable thrown _ => Throw thrown
  | _ => Return (EmptyString ++ stringOf v)
  end.

Definition objectKeys (v : value) : list string :=
  match v with
  | VObject _ keys => keys
  | VUnprintable _ keys => keys
  | _ => []
  end.

(** The last argument of the invariant (lines 219-221), [childrenString]
    being ['' + children]. *)
Definition describeWith (childrenString : string) (children : value)
  : string :=
  if String.eqb childrenString "[object Object]"
  then "object with keys {" ++ Str.join ", " (objectKeys children) ++ "}"
  else childrenString.

(** What the message of [mapIntoArray] says of an object it rejects with
    the invariant. *)
Definition describeObject (children : value) : string :=
  let childrenString := EmptyString ++ stringOf children in
  describeWith childrenString children.


(** What [mapIntoArray] throws for an object it does not accept: what the
    conversion of line 213 throws, or else the error of the invariant. *)
Definition rejection (object : value) : error :=
  match object with
  | VUnprintable thrown _ => thrown
  | _ => InvalidChildType (describeObject object)
  end.

(* ================================================================== *)
(** ** The flattener *)
(* ================================================================== *)

Definition getElementKey (element : value) (index : nat) : string :=
  match typeof element, negb (isNull element), keyOf element with
  | TObject, true, Some k => escape (EmptyString ++ k)
  | _, _, _ => toString36 index
  end.

(** The classification at the head of [mapIntoArray]: [children] after
    undefined and booleans have been replaced by null. *)
Definition normalize (children : value) : value :=
  match typeof children with
  | TUndefined | TBoolean => VNull
  | _ => children
  end.

(** [invokeCallback], computed from the original value. *)
Definition invokeCallback (children : value) : bool :=
  let type := typeof children in
  let children := normalize children in
  if isNull children then true
  else
    match type with
    | TString | TNumber => true
    | TObject =>
        match typeofSymbol children with
        | Some REACT_ELEMENT_TYPE | Some REACT_PORTAL_TYPE => true
        | None => false
        end
    | _ => false
    end.

(** The key given to the clone of a mapped element (lines 143-149). *)
Definition mappedKey (escapedPrefix : string) (child mappedChild : value)
  (childKey : string) : string :=
  escapedPrefix ++
  (match keyOf mappedChild with
   | Some k =>
       if negb (String.eqb k EmptyString) &&
          (negb (truthy child) ||
           negb (match keyOf child with
                 | Some k' => String.eqb k' k
                 | None => false
                 end))
       then escapeUserProvidedKey (EmptyString ++ k) ++ "/"
       else EmptyString
   | None => EmptyString
   end) ++
  childKey.

(** [array.push(x)], the array being passed along rather than mutated. *)
Definition push {A : Type} (array : list A) (x : A) : list A :=
  (array ++ [x])%list.

(** The type of the callback of [mapIntoArray]: a function of the child and
    of the state its closure holds, which returns the mapped child and the
    new state.  Callbacks are total: one that throws is not modelled. *)
Definition Callback (State : Type) : Type := value -> State -> value * State.

(** [MapFunc] and [ForEachFunc]: functions of [this], the child, the index
    and the state of the closure. *)
Definition MapFunc (State : Type) : Type :=
  value -> value -> nat -> State -> value * State.

Definition ForEachFunc (State : Type) : Type :=
  value -> value -> nat -> State -> State.

(** [c => c] *)
Definition identity {State : Type} : Callback State :=
  fun c st => (c, st).

(** The body shared by the loop over an array (lines 165-175) and the loop
    over an iterator (lines 201-211): [i] is the running index, [visit] the
    recursive call. *)
Definition eachChild {State : Type}
    (visit : value -> list value -> string -> string ->
             Callback State -> State -> outcome (nat * list value * State))
    (escapedPrefix nextNamePrefix : string)
    (callback : Callback State)
  : list value -> nat -> nat -> list value -> State ->
    outcome (nat * list value * State) :=
  fix each (items : list value) (i subtreeCount : nat)
      (array : list value) (st : State) {struct items} :=
    match items with
    | [] => Return (subtreeCount, array, st)
    | child :: items' =>
        let nextName := nextNamePrefix ++ getElementKey child i in
        let* (n, array, st) :=
          visit child array escapedPrefix nextName callback st in
        each items' (S i) (subtreeCount + n) array st
    end.

(** [mapIntoArray].  The callback is a function of the child and of the state
    its closure holds; the array is passed in and handed back with the count.

    The function calls itself in two ways: on the elements of [children]
    (structural), and, at line 135, on the array a callback has returned, with
    the callback [c => c].  The first argument bounds how deep calls of the
    second kind may nest; [mapIntoArray_nesting_enough] shows that they never
    nest more than once, so that [2] is always enough.

    [childKey] is a string, so the test [childKey != null] of line 132 always
    holds.  In the container case [children] has not been replaced by null
    (that would have set [invokeCallback]), so the original value is
    inspected; the case [VIterable] is the one in which
    [getIteratorFn(children)] is a function.  The [__DEV__] warning about
    Maps writes to the console and to [didWarnAboutMaps] only, and is left
    out. *)
Fixpoint mapIntoArray {State : Type} (nesting : nat) {struct nesting}
  : value -> list value -> string -> string ->
    Callback State -> State -> outcome (nat * list value * State) :=
  match nesting with
  | O => fun _ _ _ _ _ _ => OutOfFuel
  | S nesting' =>
    fix visit (children : value) (array : list value)
        (escapedPrefix nameSoFar : string)
        (callback : Callback State) (st : State) {struct children}
      : outcome (nat * list value * State) :=
      if invokeCallback children then
        let child := normalize children in
        let '(mappedChild, st) := callback child st in
        let childKey :=
          if String.eqb nameSoFar EmptyString
          then SEPARATOR ++ getElementKey child 0
          else nameSoFar in
        if isArray mappedChild then
          let escapedChildKey := escapeUserProvidedKey childKey ++ "/" in
          let* (_, array, st) :=
            mapIntoArray nesting' mappedChild array escapedChildKey
              EmptyString identity st in
          Return (1, array, st)
        else if negb (looseNull mappedChild) then
          let mappedChild :=
            if isValidElement mappedChild
            then cloneAndReplaceKey mappedChild
                   (mappedKey escapedPrefix child mappedChild childKey)
            else mappedChild in
          Return (1, push array mappedChild, st)
        else Return (1, array, st)
      else
        let nextNamePrefix :=
          if String.eqb nameSoFar EmptyString
          then SEPARATOR
          else nameSoFar ++ SUBSEPARATOR in
        match children with
        | VArray items =>
            eachChild visit escapedPrefix nextNamePrefix callback
              items 0 0 array st
        | VIterable items =>
            eachChild visit escapedPrefix nextNamePrefix callback
              items 0 0 array st
        | other =>
            match typeof other with
            | TObject =>
                let* childrenString := concatString other in
                let* _ := invariant false invalidChildFormat
                            [describeWith childrenString other] in
                Return (0, array, st)
            | _ => Return (0, array, st)
            end
        end
  end.

(* ================================================================== *)
(** ** The public operations *)
(* ================================================================== *)

(** The depth of nesting with which the public operations run the flattener;
    see [mapIntoArray]. *)
Definition nestingBound : nat := 2.

(** [mapChildren].  [func] is called as [func.call(context, child, count++)];
    [st] is the state its closure holds.  The result is [children] itself
    when that is null or undefined, the array of results otherwise. *)
Definition mapChildren {State : Type} (children : value)
    (func : MapFunc State) (context : value) (st : State)
  : outcome (value * State) :=
  if looseNull children then Return (children, st)
  else
    let result := [] in
    let count := 0 in
    let* (_, result, (_, st)) :=
      mapIntoArray nestingBound children result EmptyString EmptyString
        (fun child '(count, st) =>
           let '(mapped, st) := func context child count st in
           (mapped, (S count, st)))
        (count, st) in
    Return (VArray result, st).

Definition countChildren (children : value) : outcome nat :=
  let n := 0 in
  let* (_, n) :=
    mapChildren children (fun _ _ _ n => (VUndefined, S n))
      VUndefined n in
  Return n.

(** [forEachChildren]; [forEachFunc] returns nothing, so it is a function
    from state to state. *)
Definition forEachChildren {State : Type} (children : value)
    (forEachFunc : ForEachFunc State) (forEachContext : value)
    (st : State) : outcome State :=
  let* (_, st) :=
    mapChildren children
      (fun this child index st => (VUndefined, forEachFunc this child index st))
      forEachContext st in
  Return st.

Definition toArray (children : value) : outcome value :=
  let* (mapped, _) :=
    mapChildren children (fun _ child _ st => (child, st)) VUndefined tt in
  Return (if truthy mapped then mapped else VArray []).

Definition onlyChild (children : value) : outcome value :=
  let* _ := invariant (isValidElement children) onlyChildFormat [] in
  Return children.

(** The length of an array value. *)
Definition arrayLength (v : value) : nat :=
  match v with VArray items => length items | _ => 0 end.

(* ================================================================== *)
(** ** The traversal, described *)
(* ================================================================== *)

(** The leaves of a children tree in the order of a left-to-right,
    depth-first walk; undefined and booleans count as a null leaf, plain
    objects and functions are no leaves. *)
Fixpoint leaves (children : value) : list value :=
  match children with
  | VUndefined | VNull | VBool _ => [VNull]
  | VNumber _ | VString _ | VElement _ => [children]
  | VArray items | VIterable items => flat_map leaves items
  | VObject _ _ | VUnprintable _ _ | VFunction => []
  end.

(** The leaves a public operation visits: [mapChildren] does not start the
    flattener on null or undefined. *)
Definition visited (children : value) : list value :=
  if looseNull children then [] else leaves children.

(** The plain objects of a children tree, in the same order. *)
Fixpoint invalidChildren (children : value) : list value :=
  match children with
  | VArray items | VIterable items => flat_map invalidChildren items
  | VObject _ _ | VUnprintable _ _ => [children]
  | _ => []
  end.

(** A list with the positions of its elements. *)
Definition indexedFrom {A : Type} (start : nat) (xs : list A)
  : list (nat * A) :=
  combine (seq start (length xs)) xs.

Definition indexed {A : Type} (xs : list A) : list (nat * A) :=
  indexedFrom 0 xs.

(** What the flattener meets on its walk: a leaf, with the key it has been
    given ([childKey]), or an object it rejects. *)
Inductive event : Type :=
| Visit (child : value) (childKey : string)
| Reject (object : value).

Definition eachEvents (events : value -> string -> list event)
    (nextNamePrefix : string) : list value -> nat -> list event :=
  fix each (items : list value) (i : nat) {struct items} :=
    match items with
    | [] => []
    | child :: items' =>
        let nextName := nextNamePrefix ++ getElementKey child i in
        List.app (events child nextName) (each items' (S i))
    end.

(** The walk of [mapIntoArray] over [children], as the list of what it meets. *)
Fixpoint events (children : value) (nameSoFar : string) {struct children}
  : list event :=
  if invokeCallback children then
    let child := normalize children in
    [Visit child
       (if String.eqb nameSoFar EmptyString
        then SEPARATOR ++ getElementKey child 0
        else nameSoFar)]
  else
    let nextNamePrefix :=
      if String.eqb nameSoFar EmptyString
      then SEPARATOR
      else nameSoFar ++ SUBSEPARATOR in
    match children with
    | VArray items => eachEvents events nextNamePrefix items 0
    | VIterable items => eachEvents events nextNamePrefix items 0
    | other =>
        match typeof other with
        | TObject => [Reject other]
        | _ => []
        end
    end.

Definition visitedOf (es : list event) : list value :=
  flat_map (fun e => match e with Visit child _ => [child] | Reject _ => [] end)
    es.

Definition rejectedOf (es : list event) : list value :=
  flat_map (fun e => match e with Visit _ _ => [] | Reject o => [o] end) es.

Definition visits (es : list event) : nat := length (visitedOf es).

(** What [mapIntoArray] does with the value a callback returned for a leaf
    (lines 129-153). *)
Definition emit {State : Type} (nesting : nat) (escapedPrefix : string)
    (child : value) (childKey : string) (mappedChild : value)
    (array : list value) (st : State) : outcome (list value * State) :=
  if isArray mappedChild then
    let* (_, array, st) :=
      mapIntoArray nesting mappedChild array
        (escapeUserProvidedKey childKey ++ "/") EmptyString identity st in
    Return (array, st)
  else if negb (looseNull mappedChild) then
    Return (push array
              (if isValidElement mappedChild
               then cloneAndReplaceKey mappedChild
                      (mappedKey escapedPrefix child mappedChild childKey)
               else mappedChild), st)
  else Return (array, st).

(** The walk, run: the callback on every leaf in turn, until an object is
    rejected. *)
Fixpoint run {State : Type} (nesting : nat) (callback : Callback State)
    (escapedPrefix : string) (es : list event) (array : list value) (st : State)
  : outcome (list value * State) :=
  match es with
  | [] => Return (array, st)
  | Visit child childKey :: es' =>
      let '(mappedChild, st) := callback child st in
      let* (array, st) :=
        emit nesting escapedPrefix child childKey mappedChild array st in
      run nesting callback escapedPrefix es' array st
  | Reject object :: _ => Throw (rejection object)
  end.

(** A callback that returns no array. *)
Definition returnsNoArray {State : Type} (callback : Callback State)
  : Prop :=
  forall child st, invokeCallback child = true ->
    isArray (fst (callback child st)) = false.

(** One step of the walk for such a callback. *)
Definition step {State : Type} (callback : Callback State)
    (escapedPrefix : string) (acc : list value * State) (e : event)
  : list value * State :=
  match e with
  | Visit child childKey =>
      let '(mappedChild, st) := callback child (snd acc) in
      (if negb (looseNull mappedChild)
       then push (fst acc)
              (if isValidElement mappedChild
               then cloneAndReplaceKey mappedChild
                      (mappedKey escapedPrefix child mappedChild childKey)
               else mappedChild)
       else fst acc, st)
  | Reject _ => acc
  end.

(** The callback [mapChildren] hands to the flattener. *)
Definition counting {State : Type} (func : MapFunc State)
    (context : value) (child : value) (st : nat * State)
  : value * (nat * State) :=
  let '(count, st) := st in
  let '(mapped, st) := func context child count st in
  (mapped, (S count, st)).

(** An entry of [toArray] stands for a leaf: it is the leaf, or a clone of it
    under a new key. *)
Definition entryOf (leaf entry : value) : Prop :=
  entry = leaf \/ exists newKey, entry = cloneAndReplaceKey leaf newKey.

(** The entry the identity callback leaves in the array for a leaf: none for
    null, a clone under the key [escapedPrefix ++ childKey] for an element,
    the leaf itself otherwise. *)
Definition entry (escapedPrefix : string) (child : value) (childKey : string)
  : list value :=
  if looseNull child then []
  else [if isValidElement child
        then cloneAndReplaceKey child (escapedPrefix ++ childKey)
        else child].

Definition entriesOf (escapedPrefix : string) (es : list event) : list value :=
  flat_map
    (fun e => match e with
              | Visit child childKey => entry escapedPrefix child childKey
              | Reject _ => []
              end) es.

(** [fn.call(context, child, index)] for a pair of an index and a child. *)
Definition callAt {State : Type} (fn : ForEachFunc State)
    (context : value) (st : State) (p : nat * value) : State :=
  fn context (snd p) (fst p) st.

(** A callback that returns no array on the leaves of a walk. *)
Definition noArrayOn {State : Type} (callback : Callback State)
    (es : list event) : Prop :=
  forall child st, In child (visitedOf es) ->
    isArray (fst (callback child st)) = false.

Definition notNull (v : value) : bool := negb (looseNull v).

(** [mapIntoArray] on [children] is the run of the walk over [children]. *)
Definition walked {State : Type} (n : nat) (children : value) : Prop :=
  forall array escapedPrefix nameSoFar (callback : Callback State) st,
    mapIntoArray (S n) children array escapedPrefix nameSoFar
      callback st =
    let* (array', st') :=
      run n callback escapedPrefix (events children nameSoFar) array st in
    Return (visits (events children nameSoFar), array', st').

(** Two leaves for the examples: one with the key x, one without a key. *)
Definition leafA : value :=
  VElement (mkElement REACT_ELEMENT_TYPE (Some "x") 1).
Definition leafB : value :=
  VElement (mkElement REACT_ELEMENT_TYPE None 2).

(* ================================================================== *)
(** ** The flattener of the design document *)
(* ================================================================== *)

(** The flattener as the design document words it: the array a callback
    returned is flattened under the old prefix followed by
    [escapeUserProvidedKey(childKey) + '/'].  Everything else is
    [mapIntoArray]. *)
Fixpoint mapIntoArrayCarrying {State : Type} (nesting : nat) {struct nesting}
  : value -> list value -> string -> string ->
    Callback State -> State -> outcome (nat * list value * State) :=
  match nesting with
  | O => fun _ _ _ _ _ _ => OutOfFuel
  | S nesting' =>
    fix visit (children : value) (array : list value)
        (escapedPrefix nameSoFar : string)
        (callback : Callback State) (st : State) {struct children}
      : outcome (nat * list value * State) :=
      if invokeCallback children then
        let child := normalize children in
        let '(mappedChild, st) := callback child st in
        let childKey :=
          if String.eqb nameSoFar EmptyString
          then SEPARATOR ++ getElementKey child 0
          else nameSoFar in
        if isArray mappedChild then
          let escapedChildKey :=
            escapedPrefix ++ escapeUserProvidedKey childKey ++ "/" in
          let* (_, array, st) :=
            mapIntoArrayCarrying nesting' mappedChild array escapedChildKey
              EmptyString identity st in
          Return (1, array, st)
        else if negb (looseNull mappedChild) then
          let mappedChild :=
            if isValidElement mappedChild
            then cloneAndReplaceKey mappedChild
                   (mappedKey escapedPrefix child mappedChild childKey)
            else mappedChild in
          Return (1, push array mappedChild, st)
        else Return (1, array, st)
      else
        let nextNamePrefix :=
          if String.eqb nameSoFar EmptyString
          then SEPARATOR
          else nameSoFar ++ SUBSEPARATOR in
        match children with
        | VArray items =>
            eachChild visit escapedPrefix nextNamePrefix callback
              items 0 0 array st
        | VIterable items =>
            eachChild visit escapedPrefix nextNamePrefix callback
              items 0 0 array st
        | other =>
            match typeof other with
            | TObject =>
                let* childrenString := concatString other in
                let* _ := invariant false invalidChildFormat
                            [describeWith childrenString other] in
                Return (0, array, st)
            | _ => Return (0, array, st)
            end
        end
  end.

(** [mapChildren] over that flattener. *)
Definition mapChildrenCarrying {State : Type} (children : value)
    (func : MapFunc State) (context : value) (st : State)
  : outcome (value * State) :=
  if looseNull children then Return (children, st)
  else
    let* (_, result, (_, st)) :=
      mapIntoArrayCarrying nestingBound children [] EmptyString EmptyString
        (counting func context) (0, st) in
    Return (VArray result, st).

(** The prefixes and callbacks with which [mapIntoArray] is called:
    [mapChildren] (line 256) calls it with the empty prefix and the callback
    of the caller; the call on the array a callback returned (line 135)
    passes a new prefix and the callback [c => c]; the calls on the elements
    of the children (lines 168 and 204) pass on the prefix and the callback
    they were given.  The function is not exported. *)
Inductive occurs {State : Type} : string -> Callback State -> Prop :=
| occurs_mapChildren (callback : Callback State) :
    occurs EmptyString callback
| occurs_mapped (escapedChildKey : string) :
    occurs escapedChildKey identity.

(* ================================================================== *)
(** ** Key fragments and names, described *)
(* ================================================================== *)

(** The digits of [toString(36)], and the value of a digit. *)
Definition digits36 : list ascii :=
  list_ascii_of_string "0123456789abcdefghijklmnopqrstuvwxyz".

Fixpoint indexOf (c : ascii) (l : list ascii) (i : nat) : option nat :=
  match l with
  | [] => None
  | d :: rest => if Ascii.eqb d c then Some i else indexOf c rest (S i)
  end.

Definition digitValue (c : ascii) : option nat := indexOf c digits36 0.

Definition isDigit36 (c : ascii) : bool :=
  match digitValue c with Some _ => true | None => false end.

(** The number a base-36 numeral stands for, read from the left, [acc]
    being the value of the digits read so far. *)
Fixpoint parse36 (s : string) (acc : nat) : option nat :=
  match s with
  | EmptyString => Some acc
  | String c rest =>
      match digitValue c with
      | Some d => parse36 rest (acc * 36 + d)
      | None => None
      end
  end.

(** Every character of [s] satisfies [p]. *)
Fixpoint allChars (p : ascii -> bool) (s : string) : bool :=
  match s with
  | EmptyString => true
  | String c rest => p c && allChars p rest
  end.

(** Every '/' of [s] has a '/' next to it; [previous] tells whether the
    character before [s] is a '/'. *)
Fixpoint slashesPaired (previous : bool) (s : string) : bool :=
  match s with
  | EmptyString => true
  | String c rest =>
      if Ascii.eqb c "/"
      then (previous || Str.startsWith "/" rest) && slashesPaired true rest
      else slashesPaired false rest
  end.

(** The inverse of [escapeUserProvidedKey]: the last '/' of every run is
    dropped. *)
Fixpoint shortenRuns (s : string) : string :=
  match s with
  | EmptyString => EmptyString
  | String c rest =>
      if Ascii.eqb c "/" && negb (Str.startsWith "/" rest)
      then shortenRuns rest
      else String c (shortenRuns rest)
  end.

(** The names the walk gives to the leaves it visits. *)
Definition names (es : list event) : list string :=
  flat_map
    (fun e => match e with
              | Visit _ childKey => [childKey]
              | Reject _ => []
              end) es.

(** The explicit keys among values. *)
Definition explicitKeys (items : list value) : list string :=
  flat_map (fun c => match keyOf c with Some k => [k] | None => [] end) items.

Fixpoint distinctStrings (l : list string) : bool :=
  match l with
  | [] => true
  | k :: rest => negb (existsb (String.eqb k) rest) && distinctStrings rest
  end.

(** In every array and iterable of the tree, no two children carry the same
    explicit key. *)
Fixpoint keysDistinct (children : value) : bool :=
  match children with
  | VArray items | VIterable items =>
      distinctStrings (explicitKeys items) && forallb keysDistinct items
  | _ => true
  end.

(** The key fragments of the children of a container, the first one having
    the index [i]. *)
Fixpoint fragments (items : list value) (i : nat) : list string :=
  match items with
  | [] => []
  | child :: rest => getElementKey child i :: fragments rest (S i)
  end.

(** [k] is the name [name], or a name below it. *)
Definition extends (name k : string) : Prop :=
  k = name \/ exists rest, k = name ++ SUBSEPARATOR ++ rest.

(** A string that is empty or starts with the secondary separator. *)
Definition tailLike (t : string) : Prop :=
  t = EmptyString \/ exists rest, t = SUBSEPARATOR ++ rest.

(** A value that [toArray] can hold: a string, a number or an element, that
    is, a leaf that the flattener does not take for null. *)
Definition flatEntry (v : value) : bool :=
  invokeCallback v && negb (looseNull (normalize v)).

(** A value that [mapIntoArray] can push: neither null nor undefined, nor an
    array. *)
Definition pushed (v : value) : bool :=
  negb (looseNull v) && negb (isArray v).

(** The state after [func.call(context, child, index)], for a pair of an
    index and a child. *)
Definition stateAfter {State : Type} (func : MapFunc State) (context : value)
    (st : State) (p : nat * value) : State :=
  snd (func context (snd p) (fst p) st).

(** The outcome of a call that was given the array [array], from the outcome
    of the same call on the empty array. *)
Definition framed {State : Type} (array : list value)
    (m : outcome (list value * State)) : outcome (list value * State) :=
  let* (added, st) := m in Return ((array ++ added)%list, st).

(* ================================================================== *)
(** ** ReactMemo.js *)
(* ================================================================== *)

Module ReactMemo.







End ReactMemo.

(* ================================================================== *)
(** ** Examples *)
(* ================================================================== *)

Example escape_ex : escape "a=b:c.d" = "$a=0b=2c.d".
Proof. reflexivity. Qed.

Example escapeUserProvidedKey_ex :
  escapeUserProvidedKey "a/b//c///" = "a//b///c////".
Proof. reflexivity. Qed.

Example toString36_ex :
  map toString36 [0; 9; 10; 35; 36; 71; 1295; 1296] =
  ["0"; "9"; "a"; "z"; "10"; "1z"; "zz"; "100"].
Proof. reflexivity. Qed.

(** The scenario of the design document: explicit keys are used, nested
    arrays are named under the index of the array. *)
Example toArray_nested_ex :
  toArray (VArray [leafA; VArray [leafB; VString "s"; leafB]]) =
  Return (VArray [cloneAndReplaceKey leafA ".$x";
                  cloneAndReplaceKey leafB ".1:0";
                  VString "s";
                  cloneAndReplaceKey leafB ".1:2"]).
Proof. reflexivity. Qed.

(** A function that returns arrays: the results are flattened and keyed
    under the key of the leaf they come from. *)
Example mapChildren_array_ex :
  mapChildren (VArray [leafA; leafB])
    (fun (_ child : value) (_ : nat) (st : unit) =>
       (VArray [child; VArray [leafB]], st)) VUndefined tt =
  Return (VArray [cloneAndReplaceKey leafA ".$x/.$x";
                  cloneAndReplaceKey leafB ".$x/.1:0";
                  cloneAndReplaceKey leafB ".1/.0";
                  cloneAndReplaceKey leafB ".1/.1:0"], tt).
Proof. reflexivity. Qed.

(* ================================================================== *)
(** ** The key escapers, proved *)
(* ================================================================== *)

Lemma escaperLookup_cases (c : ascii) :
  (c = "="%char /\ escaperLookup c = Some "=0") \/
  (c = ":"%char /\ escaperLookup c = Some "=2") \/
  (c <> "="%char /\ c <> ":"%char /\ escaperLookup c = None).
Proof.
  unfold escaperLookup.
  destruct (Ascii.eqb c "=") eqn:E1.
  - left. apply Ascii.eqb_eq in E1. auto.
  - destruct (Ascii.eqb c ":") eqn:E2.
    + right; left. apply Ascii.eqb_eq in E2. auto.
    + right; right. apply Ascii.eqb_neq in E1, E2. auto.
Qed.

Lemma escaped_no_colon (raw : string) :
  Str.contains ":" (Str.replaceChars escaperLookup raw) = false.
Proof.
  induction raw as [|c raw IH]; simpl; [reflexivity|].
  destruct (escaperLookup_cases c) as [[C E]|[[C E]|[C1 [C2 E]]]];
    rewrite E; simpl; rewrite IH; try reflexivity.
  apply Ascii.eqb_neq in C2. rewrite C2. reflexivity.
Qed.

Lemma escaped_equals_are_codes (raw : string) :
  Str.equalsAreCodes (Str.replaceChars escaperLookup raw) = true.
Proof.
  induction raw as [|c raw IH]; simpl; [reflexivity|].
  destruct (escaperLookup_cases c) as [[C E]|[[C E]|[C1 [C2 E]]]];
    rewrite E; simpl; rewrite IH; try reflexivity.
  apply Ascii.eqb_neq in C1. rewrite C1. reflexivity.
Qed.

Lemma escaped_keeps_dots (raw : string) :
  Str.occurrences "." (Str.replaceChars escaperLookup raw) =
  Str.occurrences "." raw.
Proof.
  induction raw as [|c raw IH]; simpl; [reflexivity|].
  destruct (escaperLookup_cases c) as [[C E]|[[C E]|[C1 [C2 E]]]];
    rewrite E; simpl; rewrite IH; subst; reflexivity.
Qed.

Lemma escapeUserProvidedKey_no_slash (s : string) :
  Str.contains "/" s = false -> escapeUserProvidedKey s = s.
Proof.
  induction s as [|c s IH]; simpl; [reflexivity|].
  intro H. apply orb_false_iff in H as [Hc Hs].
  rewrite Hc. simpl. now rewrite IH.
Qed.

Lemma escapeUserProvidedKey_isolated (s : string) :
  Str.slashesIsolated s = true -> escapeUserProvidedKey s = doubleEachSlash s.
Proof.
  unfold doubleEachSlash.
  induction s as [|c s IH]; simpl; [reflexivity|].
  intro H. apply andb_true_iff in H as [Hc Hs].
  rewrite (IH Hs).
  destruct (Ascii.eqb c "/") eqn:E; simpl in *.
  - apply Ascii.eqb_eq in E. subst c.
    apply negb_true_iff in Hc. rewrite Hc. reflexivity.
  - reflexivity.
Qed.

Lemma escapeUserProvidedKey_slashes (n : nat) (b : string) :
  Str.startsWith "/" b = false ->
  escapeUserProvidedKey (Str.replicate (S n) "/" ++ b) =
  Str.replicate (S (S n)) "/" ++ escapeUserProvidedKey b.
Proof.
  intro Hb. induction n as [|n IH].
  - simpl. rewrite Hb. reflexivity.
  - change (Str.replicate (S (S n)) "/" ++ b)
      with (String "/" (Str.replicate (S n) "/" ++ b)).
    cbn [escapeUserProvidedKey]. rewrite IH. reflexivity.
Qed.

Lemma startsWith_append (c : ascii) (a b : string) :
  a <> EmptyString -> Str.startsWith c (a ++ b) = Str.startsWith c a.
Proof. destruct a; [congruence | reflexivity]. Qed.

Lemma escapeUserProvidedKey_run (a : string) (n : nat) (b : string) :
  Str.endsWith "/" a = false ->
  Str.startsWith "/" b = false ->
  escapeUserProvidedKey (a ++ Str.replicate (S n) "/" ++ b) =
  escapeUserProvidedKey a ++ Str.replicate (S (S n)) "/" ++
  escapeUserProvidedKey b.
Proof.
  intros Ha Hb. induction a as [|c a IH].
  - apply escapeUserProvidedKey_slashes, Hb.
  - destruct a as [|d a].
    + simpl in Ha.
      change ((String c EmptyString) ++ Str.replicate (S n) "/" ++ b)
        with (String c (Str.replicate (S n) "/" ++ b)).
      cbn [escapeUserProvidedKey]. rewrite Ha.
      rewrite escapeUserProvidedKey_slashes by exact Hb. reflexivity.
    + assert (Hd : Str.endsWith "/" (String d a) = false) by exact Ha.
      specialize (IH Hd).
      change (String c (String d a) ++ Str.replicate (S n) "/" ++ b)
        with (String c (String d a ++ Str.replicate (S n) "/" ++ b)).
      cbn [escapeUserProvidedKey].
      rewrite startsWith_append by discriminate.
      rewrite IH.
      destruct (Ascii.eqb c "/" && negb (Str.startsWith "/" (String d a)));
        reflexivity.
Qed.

Lemma replaceChars_escaper_inj (a b : string) :
  Str.replaceChars escaperLookup a = Str.replaceChars escaperLookup b -> a = b.
Proof.
  revert b; induction a as [|c a IH]; intros [|d b]; simpl; intro H.
  - reflexivity.
  - destruct (escaperLookup_cases d) as [[_ E]|[[_ E]|[_ [_ E]]]];
      rewrite E in H; discriminate.
  - destruct (escaperLookup_cases c) as [[_ E]|[[_ E]|[_ [_ E]]]];
      rewrite E in H; discriminate.
  - destruct (escaperLookup_cases c) as [[C E]|[[C E]|[C1 [C2 E]]]];
      destruct (escaperLookup_cases d) as [[D E']|[[D E']|[D1 [D2 E']]]];
      rewrite E, E' in H; simpl in H; subst;
      try discriminate;
      try (injection H as H; f_equal; auto; fail);
      try (injection H as H1 H2; congruence).
Qed.

(** C3, as stated, fails: a run of two '/' becomes three, not four. *)
Lemma escapeUserProvidedKey_run_not_doubled :
  escapeUserProvidedKey "//" = "///" /\
  doubleEachSlash "//" = "////" /\
  escapeUserProvidedKey "//" <> doubleEachSlash "//".
Proof. repeat split; try reflexivity. discriminate. Qed.

(** C3, amended.  For every input string, [escapeUserProvidedKey] appends
    one '/' to each maximal run of '/' characters and leaves everything else
    as it is: a string without '/' is unchanged, and a run of [n+1] slashes
    between a text that does not end in '/' and a text that does not start
    with '/' becomes a run of [n+2].  On the strings in which no two '/' are
    adjacent this is the replacement of each '/' by '//'. *)
Theorem escapeUserProvidedKey_extends_runs :
  (forall s, Str.contains "/" s = false -> escapeUserProvidedKey s = s) /\
  (forall a n b,
     Str.endsWith "/" a = false ->
     Str.startsWith "/" b = false ->
     escapeUserProvidedKey (a ++ Str.replicate (S n) "/" ++ b) =
     escapeUserProvidedKey a ++ Str.replicate (S (S n)) "/" ++
     escapeUserProvidedKey b) /\
  (forall s, Str.slashesIsolated s = true ->
             escapeUserProvidedKey s = doubleEachSlash s).
Proof.
  split; [exact escapeUserProvidedKey_no_slash|].
  split; [exact escapeUserProvidedKey_run|].
  exact escapeUserProvidedKey_isolated.
Qed.

Lemma escapeUserProvidedKey_extends_runs_witness :
  escapeUserProvidedKey "key" = "key" /\
  escapeUserProvidedKey ("a" ++ Str.replicate 3 "/" ++ "b") =
  "a" ++ Str.replicate 4 "/" ++ "b" /\
  escapeUserProvidedKey ".$a/b/" = doubleEachSlash ".$a/b/".
Proof.
  destruct escapeUserProvidedKey_extends_runs as (Hnone & Hrun & Hisolated).
  split; [exact (Hnone "key" eq_refl)|].
  split; [exact (Hrun "a" 2 "b" eq_refl eq_refl)|].
  exact (Hisolated ".$a/b/" eq_refl).
Defined.

(** C4, as stated, fails: the primary separator '.' is not escaped. *)
Lemma escape_keeps_primary_separator :
  escape SEPARATOR = "$." /\
  Str.contains "." (escape SEPARATOR) = true.
Proof. split; reflexivity. Qed.

(** C4, amended.  For every raw key, [escape raw] does not contain the
    secondary separator ':', and every '=' in it starts one of the codes
    '=0' and '=2'; the primary separator '.' is not escaped: it occurs in
    [escape raw] as often as in [raw]. *)
Theorem escape_output_shape (raw : string) :
  Str.contains ":" (escape raw) = false /\
  Str.equalsAreCodes (escape raw) = true /\
  Str.occurrences "." (escape raw) = Str.occurrences "." raw.
Proof.
  unfold escape. cbn [append Str.contains Str.equalsAreCodes Str.occurrences].
  repeat split.
  - apply escaped_no_colon.
  - simpl. apply escaped_equals_are_codes.
  - simpl. apply escaped_keeps_dots.
Qed.

(** C6.  [escape] is injective: distinct raw keys have distinct escaped
    forms. *)
Theorem escape_injective (a b : string) :
  a <> b -> escape a <> escape b.
Proof.
  intros Hab H. apply Hab. unfold escape in H.
  injection H as H. now apply replaceChars_escaper_inj.
Qed.

Lemma escape_injective_witness :
  "a=" <> "a:" /\ escape "a=" <> escape "a:".
Proof.
  assert (H : "a=" <> "a:") by discriminate.
  split; [exact H | exact (escape_injective "a=" "a:" H)].
Defined.

(* ================================================================== *)
(** ** The flattener is the run of its walk *)
(* ================================================================== *)

Lemma visits_app (es1 es2 : list event) :
  visits (es1 ++ es2) = visits es1 + visits es2.
Proof. unfold visits, visitedOf. now rewrite flat_map_app, length_app. Qed.

Lemma run_app {State : Type} n (cb : Callback State) pre es1 es2 array st :
  run n cb pre (es1 ++ es2) array st =
  let* (array', st') := run n cb pre es1 array st in
  run n cb pre es2 array' st'.
Proof.
  revert array st; induction es1 as [|[child childKey|object] es1 IH];
    intros array st; simpl.
  - reflexivity.
  - destruct (cb child st) as [mapped st1].
    destruct (emit n pre child childKey mapped array st1) as [[array' st']| |];
      simpl; auto.
  - reflexivity.
Qed.

Section Characterisation.
Context {State : Type}.
Variable n : nat.

Lemma eachChild_run items :
  Forall (@walked State n) items ->
  forall pre prefix (cb : Callback State) i acc array st,
    eachChild (mapIntoArray (S n)) pre prefix cb items i acc array st =
    let* (array', st') :=
      run n cb pre (eachEvents events prefix items i) array st in
    Return (acc + visits (eachEvents events prefix items i), array', st').
Proof.
  induction 1 as [|child items Hc _ IH]; intros pre prefix cb i acc array st.
  - simpl. now rewrite Nat.add_0_r.
  - cbn [eachChild eachEvents]. rewrite Hc.
    rewrite run_app, visits_app.
    destruct (run n cb pre (events child (prefix ++ getElementKey child i))
                array st)
      as [[array1 st1]| |]; simpl; auto.
    fold (eachChild (mapIntoArray (S n)) pre prefix cb).
    rewrite IH.
    destruct (run n cb pre (eachEvents events prefix items (S i)) array1 st1)
      as [[array2 st2]| |]; simpl; auto.
    now rewrite Nat.add_assoc.
Qed.

Lemma leaf_run children :
  invokeCallback children = true -> @walked State n children.
Proof.
  intros Hleaf array pre name cb st.
  assert (E : mapIntoArray (S n) children array pre name cb st =
    let child := normalize children in
    let '(mappedChild, st) := cb child st in
    let childKey := if String.eqb name EmptyString
                    then SEPARATOR ++ getElementKey child 0 else name in
    let* (array, st) := emit n pre child childKey mappedChild array st in
    Return (1, array, st)).
  { destruct children; simpl in Hleaf; try discriminate;
      try match goal with e : element |- _ => destruct e as [[] k0 a0] end;
      cbn -[emit]; unfold emit;
      match goal with
      | |- context [cb ?c st] => destruct (cb c st) as [m st1]
      end;
      (destruct (isArray m);
       [ match goal with |- context [mapIntoArray n ?a ?b ?c ?d ?e ?f] =>
           destruct (mapIntoArray n a b c d e f) as [[[k a1] s1]| |] end;
         reflexivity
       | destruct (negb (looseNull m)); reflexivity ]). }
  rewrite E.
  assert (Ev : events children name =
    [Visit (normalize children)
       (if String.eqb name EmptyString
        then SEPARATOR ++ getElementKey (normalize children) 0 else name)]).
  { destruct children; simpl in Hleaf; try discriminate;
      try match goal with e : element |- _ => destruct e as [[] k0 a0] end;
      reflexivity. }
  rewrite Ev. cbn [run visits visitedOf flat_map length app]. cbv zeta.
  destruct (cb (normalize children) st) as [m st1].
  match goal with |- context [emit ?a ?b ?c ?d ?e ?f ?g] =>
    destruct (emit a b c d e f g) as [[array1 st2]| |] end; reflexivity.
Qed.

Theorem mapIntoArray_run children : @walked State n children.
Proof.
  induction children
    as [| | b | z | s | e | items IH | items IH | str keys | thrown keys |]
    using value_nested_ind;
    try (apply leaf_run; reflexivity).
  - apply leaf_run. destruct e as [[] k a]; reflexivity.
  - intros array pre name cb st.
    change (mapIntoArray (S n) (VArray items) array pre name cb st)
      with (eachChild (mapIntoArray (S n)) pre
              (if String.eqb name EmptyString then SEPARATOR
               else name ++ SUBSEPARATOR) cb items 0 0 array st).
    rewrite eachChild_run by assumption. reflexivity.
  - intros array pre name cb st.
    change (mapIntoArray (S n) (VIterable items) array pre name cb st)
      with (eachChild (mapIntoArray (S n)) pre
              (if String.eqb name EmptyString then SEPARATOR
               else name ++ SUBSEPARATOR) cb items 0 0 array st).
    rewrite eachChild_run by assumption. reflexivity.
  - intros array pre name cb st. reflexivity.
  - intros array pre name cb st. reflexivity.
  - intros array pre name cb st. reflexivity.
Qed.
End Characterisation.

(** *** Leaves and rejected objects of the walk *)

Lemma visitedOf_app (es1 es2 : list event) :
  visitedOf (es1 ++ es2) = (visitedOf es1 ++ visitedOf es2)%list.
Proof. apply flat_map_app. Qed.

Lemma rejectedOf_app (es1 es2 : list event) :
  rejectedOf (es1 ++ es2) = (rejectedOf es1 ++ rejectedOf es2)%list.
Proof. apply flat_map_app. Qed.

Lemma eachEvents_visited items :
  Forall (fun c => forall name, visitedOf (events c name) = leaves c) items ->
  forall prefix i,
    visitedOf (eachEvents events prefix items i) = flat_map leaves items.
Proof.
  induction 1 as [|c items Hc _ IH]; intros prefix i; simpl.
  - reflexivity.
  - now rewrite visitedOf_app, Hc, IH.
Qed.

Lemma events_visited children :
  forall name, visitedOf (events children name) = leaves children.
Proof.
  induction children
    as [| | b | z | s | e | items IH | items IH | str keys | thrown keys |]
    using value_nested_ind; intro name; try reflexivity.
  - destruct e as [[] k a]; reflexivity.
  - apply eachEvents_visited, IH.
  - apply eachEvents_visited, IH.
Qed.

Lemma eachEvents_rejected items :
  Forall (fun c => forall name, rejectedOf (events c name) = invalidChildren c)
    items ->
  forall prefix i,
    rejectedOf (eachEvents events prefix items i) =
    flat_map invalidChildren items.
Proof.
  induction 1 as [|c items Hc _ IH]; intros prefix i; simpl.
  - reflexivity.
  - now rewrite rejectedOf_app, Hc, IH.
Qed.

Lemma events_rejected children :
  forall name, rejectedOf (events children name) = invalidChildren children.
Proof.
  induction children
    as [| | b | z | s | e | items IH | items IH | str keys | thrown keys |]
    using value_nested_ind; intro name; try reflexivity.
  - destruct e as [[] k a]; reflexivity.
  - apply eachEvents_rejected, IH.
  - apply eachEvents_rejected, IH.
Qed.

Lemma leaves_are_leaves children :
  Forall (fun c => invokeCallback c = true /\ normalize c = c)
    (leaves children).
Proof.
  induction children
    as [| | b | z | s | e | items IH | items IH | str keys | thrown keys |]
    using value_nested_ind; simpl; auto.
  - constructor; auto. destruct e as [[] k a]; auto.
  - induction IH; simpl; auto. apply Forall_app; auto.
  - induction IH; simpl; auto. apply Forall_app; auto.
Qed.


Lemma leaf_not_array c :
  invokeCallback c = true -> isArray (normalize c) = false.
Proof. destruct c; simpl; intro H; try reflexivity; discriminate. Qed.

(** *** Callbacks that return no array *)

Lemma noArrayOn_cons {State : Type} (cb : Callback State) e es :
  noArrayOn cb (e :: es) -> noArrayOn cb es.
Proof.
  intros H child st Hin. apply H.
  change (e :: es) with ([e] ++ es)%list. rewrite visitedOf_app.
  apply in_or_app. now right.
Qed.

Lemma run_flat {State : Type} n (cb : Callback State) pre es :
  noArrayOn cb es ->
  forall array st,
    run n cb pre es array st =
    match rejectedOf es with
    | [] => Return (fold_left (step cb pre) es (array, st))
    | o :: _ => Throw (rejection o)
    end.
Proof.
  induction es as [|[child childKey|object] es IH]; intros Hflat array st.
  - reflexivity.
  - cbn [run rejectedOf flat_map app fold_left step fst snd].
    fold (rejectedOf es).
    pose proof (Hflat child st (or_introl eq_refl)) as Hm.
    destruct (cb child st) as [m st1]. simpl in Hm.
    unfold emit. rewrite Hm.
    destruct (negb (looseNull m)); simpl;
      apply IH; eapply noArrayOn_cons; eauto.
  - reflexivity.
Qed.

Lemma returnsNoArray_on {State : Type} (cb : Callback State) children name :
  returnsNoArray cb -> noArrayOn cb (events children name).
Proof.
  intros H child st Hin. rewrite events_visited in Hin.
  pose proof (leaves_are_leaves children) as Hl.
  rewrite Forall_forall in Hl. destruct (Hl _ Hin) as [Hleaf _].
  now apply H.
Qed.

Lemma identity_returnsNoArray {State : Type} : returnsNoArray (@identity State).
Proof.
  intros child st Hleaf. simpl.
  destruct child; simpl in *; try reflexivity; discriminate.
Qed.

(** *** One level of nesting is enough for [c => c] *)

Lemma mapIntoArray_identity {State : Type} n m array pre name (st : State) :
  mapIntoArray (S n) m array pre name identity st =
  match invalidChildren m with
  | [] =>
      let r := fold_left (step identity pre) (events m name) (array, st) in
      Return (length (leaves m), fst r, snd r)
  | o :: _ => Throw (rejection o)
  end.
Proof.
  rewrite mapIntoArray_run.
  rewrite run_flat
    by (apply returnsNoArray_on, identity_returnsNoArray).
  rewrite events_rejected. unfold visits. rewrite events_visited.
  destruct (invalidChildren m); [|reflexivity].
  cbn [bind]. destruct (fold_left _ _ _); reflexivity.
Qed.

Lemma emit_nesting {State : Type} n pre child childKey m array (st : State) :
  emit (S n) pre child childKey m array st =
  emit 1 pre child childKey m array st.
Proof.
  unfold emit. destruct (isArray m); [|reflexivity].
  now rewrite !mapIntoArray_identity.
Qed.

Lemma run_nesting {State : Type} n (cb : Callback State) pre es :
  forall array st,
    run (S n) cb pre es array st = run 1 cb pre es array st.
Proof.
  induction es as [|[child childKey|object] es IH]; intros array st; simpl;
    try reflexivity.
  destruct (cb child st) as [m st1]. rewrite emit_nesting.
  destruct (emit 1 pre child childKey m array st1) as [[a s]| |]; simpl; auto.
Qed.

Lemma emit_outcome {State : Type} n pre child childKey m array (st : State) :
  (exists r, emit (S n) pre child childKey m array st = Return r) \/
  (exists o, isArray m = true /\ In o (invalidChildren m) /\
     emit (S n) pre child childKey m array st =
     Throw (rejection o)).
Proof.
  unfold emit. destruct (isArray m) eqn:Harr.
  - rewrite mapIntoArray_identity.
    destruct (invalidChildren m) as [|o rest] eqn:Hinv.
    + left. eexists. reflexivity.
    + right. exists o. repeat split; auto. now left.
  - left. destruct (negb (looseNull m)); eexists; reflexivity.
Qed.

Lemma run_outcome {State : Type} n (cb : Callback State) pre es :
  forall array st,
    (rejectedOf es = [] /\
     exists r, run (S n) cb pre es array st = Return r) \/
    (exists o,
       run (S n) cb pre es array st =
       Throw (rejection o) /\
       (In o (rejectedOf es) \/
        exists child s, In child (visitedOf es) /\
          isArray (fst (cb child s)) = true /\
          In o (invalidChildren (fst (cb child s))))).
Proof.
  induction es as [|[child childKey|object] es IH]; intros array st.
  - left. split; [reflexivity|]. eexists; reflexivity.
  - cbn [run]. destruct (cb child st) as [m st1] eqn:Hcb.
    destruct (emit_outcome n pre child childKey m array st1)
      as [[[a s] Hr]|[o (Harr & Hin & Ht)]].
    + rewrite Hr. cbn [bind].
      destruct (IH a s) as [[Hrej Hret]|[o (Hthrow & Hwhere)]].
      * left. split; assumption.
      * right. exists o. split; [assumption|].
        destruct Hwhere as [Hin|(c' & s' & Hc' & Harr & Hin)].
        -- left. exact Hin.
        -- right. exists c', s'. repeat split; auto. now right.
    + right. exists o. rewrite Ht. split; [reflexivity|].
      right. exists child, st. rewrite Hcb. repeat split; auto. now left.
  - right. exists object. split; [reflexivity|]. left. now left.
Qed.

(** Every call returns or throws, and depth 2 is as good as any greater
    depth: the first argument of [mapIntoArray] does not limit the public
    operations. *)
Theorem mapIntoArray_nesting_enough {State : Type} n children array pre name
    (cb : Callback State) st :
  mapIntoArray (2 + n) children array pre name cb st =
  mapIntoArray nestingBound children array pre name cb st /\
  mapIntoArray nestingBound children array pre name cb st <> OutOfFuel.
Proof.
  unfold nestingBound. split.
  - cbn [Nat.add]. rewrite !mapIntoArray_run. now rewrite run_nesting.
  - rewrite mapIntoArray_run.
    destruct (run_outcome 0 cb pre (events children name) array st)
      as [[_ [[a s] Hr]]|[o [Ht _]]]; rewrite ?Hr, ?Ht; discriminate.
Qed.

(** *** The identity callback *)

Lemma mappedKey_same pre child childKey :
  mappedKey pre child child childKey = pre ++ childKey.
Proof.
  unfold mappedKey. destruct child; simpl; try reflexivity.
  destruct (key e) as [k|]; [|reflexivity].
  rewrite String.eqb_refl. simpl. rewrite andb_false_r. reflexivity.
Qed.

Lemma entriesOf_app pre es1 es2 :
  entriesOf pre (es1 ++ es2) = (entriesOf pre es1 ++ entriesOf pre es2)%list.
Proof. apply flat_map_app. Qed.

Lemma step_identity_like {State : Type} (cb : Callback State) pre
    child childKey array st st' :
  cb child st = (child, st') ->
  step cb pre (array, st) (Visit child childKey) =
  ((array ++ entry pre child childKey)%list, st').
Proof.
  intro H. unfold step, entry. cbn [fst snd]. rewrite H.
  rewrite mappedKey_same.
  destruct (looseNull child); simpl; [now rewrite app_nil_r | reflexivity].
Qed.

Lemma fold_identity {State : Type} pre es :
  forall array (st : State),
    fold_left (step identity pre) es (array, st) =
    ((array ++ entriesOf pre es)%list, st).
Proof.
  induction es as [|[child childKey|object] es IH]; intros array st.
  - simpl. now rewrite app_nil_r.
  - cbn [fold_left]. rewrite (step_identity_like identity pre _ _ _ st st)
      by reflexivity.
    rewrite IH. cbn [entriesOf flat_map]. now rewrite <- app_assoc.
  - cbn [fold_left step]. apply IH.
Qed.

(** The flattener under [c => c]: the leaves of the tree are appended, the
    elements among them cloned under [escapedPrefix] and their name. *)
Lemma mapIntoArray_identity_entries {State : Type} n m array pre name
    (st : State) :
  mapIntoArray (S n) m array pre name identity st =
  match invalidChildren m with
  | [] => Return (length (leaves m),
                  (array ++ entriesOf pre (events m name))%list, st)
  | o :: _ => Throw (rejection o)
  end.
Proof.
  rewrite mapIntoArray_identity, fold_identity. reflexivity.
Qed.

(** *** The leaf case *)

Lemma mapIntoArray_leaf {State : Type} n children array pre name
    (cb : Callback State) st :
  invokeCallback children = true ->
  mapIntoArray (S n) children array pre name cb st =
  let child := normalize children in
  let childKey := if String.eqb name EmptyString
                  then SEPARATOR ++ getElementKey child 0 else name in
  let* (array', st') :=
    emit n pre child childKey (fst (cb child st)) array (snd (cb child st)) in
  Return (1, array', st').
Proof.
  intro Hleaf. rewrite mapIntoArray_run.
  assert (Ev : events children name =
    [Visit (normalize children)
       (if String.eqb name EmptyString
        then SEPARATOR ++ getElementKey (normalize children) 0 else name)]).
  { destruct children; simpl in Hleaf; try discriminate;
      try match goal with e : element |- _ => destruct e as [[] k0 a0] end;
      reflexivity. }
  rewrite Ev. cbn [run visits visitedOf flat_map length app]. cbv zeta.
  destruct (cb (normalize children) st) as [m st1]. cbn [fst snd].
  match goal with |- context [emit ?a ?b ?c ?d ?e ?f ?g] =>
    destruct (emit a b c d e f g) as [[array1 st2]| |] end; reflexivity.
Qed.

(** *** The public operations as walks *)

Lemma mapChildren_run {State : Type} children
    (func : MapFunc State) ctx st :
  looseNull children = false ->
  mapChildren children func ctx st =
  let* (result, cst) :=
    run 1 (counting func ctx) EmptyString (events children EmptyString)
      [] (0, st) in
  Return (VArray result, snd cst).
Proof.
  intro Hnn. unfold mapChildren. rewrite Hnn.
  change (fun (child : value) '(count, st0) =>
            let '(mapped, st1) := func ctx child count st0 in
            (mapped, (S count, st1)))
    with (counting func ctx).
  unfold nestingBound. rewrite mapIntoArray_run.
  destruct (run 1 (counting func ctx) EmptyString
              (events children EmptyString) [] (0, st))
    as [[a [c s]]| |]; reflexivity.
Qed.

Lemma mapChildren_flat {State : Type} children
    (func : MapFunc State) ctx st :
  looseNull children = false ->
  noArrayOn (counting func ctx) (events children EmptyString) ->
  mapChildren children func ctx st =
  match invalidChildren children with
  | [] =>
      let r := fold_left (step (counting func ctx) EmptyString)
                 (events children EmptyString) ([], (0, st)) in
      Return (VArray (fst r), snd (snd r))
  | o :: _ => Throw (rejection o)
  end.
Proof.
  intros Hnn Hflat. rewrite mapChildren_run by assumption.
  rewrite run_flat by assumption. rewrite events_rejected.
  destruct (invalidChildren children); [|reflexivity].
  cbn [bind]. destruct (fold_left _ _ _) as [a [c s]]. reflexivity.
Qed.

Lemma indexedFrom_cons {A : Type} start (x : A) xs :
  indexedFrom start (x :: xs) = (start, x) :: indexedFrom (S start) xs.
Proof. reflexivity. Qed.

Lemma fold_forEach {State : Type} (fn : ForEachFunc State) ctx pre es :
  forall array c st,
    fold_left
      (step (counting (fun this child index st =>
                         (VUndefined, fn this child index st)) ctx) pre)
      es (array, (c, st)) =
    (array, (c + visits es,
             fold_left (callAt fn ctx) (indexedFrom c (visitedOf es)) st)).
Proof.
  induction es as [|[child childKey|object] es IH]; intros array c st.
  - simpl. now rewrite Nat.add_0_r.
  - cbn [fold_left step counting fst snd looseNull negb].
    rewrite IH. unfold visits. cbn [visitedOf flat_map app length].
    fold (visitedOf es). rewrite indexedFrom_cons.
    cbn [fold_left callAt fst snd].
    now rewrite Nat.add_succ_r.
  - cbn [fold_left step]. rewrite IH. reflexivity.
Qed.

Lemma fold_toArray pre es :
  forall array c,
    fold_left
      (step (counting (fun (_ child : value) (_ : nat) (st : unit) =>
                         (child, st)) VUndefined) pre)
      es (array, (c, tt)) =
    ((array ++ entriesOf pre es)%list, (c + visits es, tt)).
Proof.
  induction es as [|[child childKey|object] es IH]; intros array c.
  - simpl. now rewrite app_nil_r, Nat.add_0_r.
  - cbn [fold_left].
    rewrite (step_identity_like _ pre child childKey array (c, tt)
               (S c, tt)) by reflexivity.
    rewrite IH. unfold visits. cbn [visitedOf entriesOf flat_map app length].
    fold (visitedOf es). now rewrite <- app_assoc, Nat.add_succ_r.
  - cbn [fold_left step]. rewrite IH. reflexivity.
Qed.

Lemma forEach_noArray {State : Type} (fn : ForEachFunc State) ctx es :
  noArrayOn (counting (fun this child index st =>
                         (VUndefined, fn this child index st)) ctx) es.
Proof. intros child [c st] _. reflexivity. Qed.

Lemma toArray_noArray children name :
  noArrayOn (counting (fun (_ child : value) (_ : nat) (st : unit) =>
                         (child, st)) VUndefined) (events children name).
Proof.
  intros child [c st] Hin. simpl.
  rewrite events_visited in Hin.
  pose proof (leaves_are_leaves children) as Hl.
  rewrite Forall_forall in Hl. destruct (Hl _ Hin) as [Hleaf Hn].
  rewrite <- Hn. now apply leaf_not_array.
Qed.

Lemma forEachChildren_walk {State : Type} children
    (fn : ForEachFunc State) ctx st :
  forEachChildren children fn ctx st =
  match invalidChildren children with
  | [] => Return (fold_left (callAt fn ctx) (indexed (visited children)) st)
  | o :: _ => Throw (rejection o)
  end.
Proof.
  unfold forEachChildren, visited.
  destruct (looseNull children) eqn:Hnn.
  - unfold mapChildren. rewrite Hnn.
    destruct children; try discriminate; reflexivity.
  - rewrite mapChildren_flat by (auto using forEach_noArray).
    destruct (invalidChildren children); [|reflexivity].
    rewrite fold_forEach. cbn [bind fst snd].
    now rewrite events_visited.
Qed.

Lemma toArray_walk children :
  toArray children =
  match invalidChildren children with
  | [] => Return (VArray (entriesOf EmptyString (events children EmptyString)))
  | o :: _ => Throw (rejection o)
  end.
Proof.
  unfold toArray.
  destruct (looseNull children) eqn:Hnn.
  - unfold mapChildren. rewrite Hnn.
    destruct children; try discriminate; reflexivity.
  - rewrite mapChildren_flat by (auto using toArray_noArray).
    destruct (invalidChildren children); [|reflexivity].
    rewrite fold_toArray. reflexivity.
Qed.

Lemma entriesOf_entryOf pre es :
  Forall2 entryOf (filter notNull (visitedOf es)) (entriesOf pre es).
Proof.
  induction es as [|[child childKey|object] es IH]; simpl; auto.
  unfold entry, notNull.
  destruct (looseNull child); simpl; [exact IH|].
  constructor; [|exact IH].
  destruct (isValidElement child); [right; eauto | now left].
Qed.

(* ================================================================== *)
(** ** The flattener and the public operations, proved *)
(* ================================================================== *)

(** C1, as stated, fails: the array [[null]] has one leaf, which
    [countChildren] counts, while [toArray] returns no entry for it. *)
Lemma toArray_shorter_than_count :
  visited (VArray [VNull]) = [VNull] /\
  countChildren (VArray [VNull]) = Return 1 /\
  toArray (VArray [VNull]) = Return (VArray []) /\
  arrayLength (VArray []) <> 1.
Proof. repeat split; try reflexivity. discriminate. Qed.

Lemma fold_callAt_count xs :
  forall start n,
    fold_left (callAt (fun _ _ _ n => S n) VUndefined)
      (indexedFrom start xs) n = n + length xs.
Proof.
  induction xs as [|x xs IH]; intros start n.
  - simpl. now rewrite Nat.add_0_r.
  - rewrite indexedFrom_cons. cbn [fold_left callAt]. rewrite IH. simpl. lia.
Qed.

Lemma filter_length_le {A : Type} (f : A -> bool) xs :
  length (filter f xs) <= length xs.
Proof.
  induction xs as [|x xs IH]; simpl; [lia|]. destruct (f x); simpl; lia.
Qed.

Lemma filter_all {A : Type} (f : A -> bool) xs :
  Forall (fun x => f x = true) xs -> filter f xs = xs.
Proof.
  induction 1 as [|x xs Hx _ IH]; simpl; [reflexivity|]. now rewrite Hx, IH.
Qed.

Lemma Forall2_length_eq {A B : Type} (R : A -> B -> Prop) xs ys :
  Forall2 R xs ys -> length xs = length ys.
Proof. induction 1; simpl; congruence. Qed.

Lemma visited_filter children :
  filter notNull (visited children) = filter notNull (leaves children).
Proof.
  unfold visited. destruct children; reflexivity.
Qed.

(** C1, amended.  On a children tree without plain objects the flattener
    returns the number of leaves of the tree.  A public operation visits the
    leaves [visited children] (all of them, unless the children are null or
    undefined), [n] of them: [countChildren] returns [n]; [forEachChildren]
    calls [fn] on exactly these leaves, in this order, with the indices
    [0 .. n-1]; [toArray] returns one entry for each leaf that is not null,
    in the same order, each entry being the leaf or its clone under a new
    key.  The length of [toArray] is therefore at most [n], and is [n] when
    no leaf is null. *)
Theorem traversals_agree (children : value) :
  invalidChildren children = [] ->
  (forall (State : Type) array escapedPrefix nameSoFar (st : State),
     mapIntoArray nestingBound children array escapedPrefix nameSoFar
       identity st =
     Return (length (leaves children),
             (array ++ entriesOf escapedPrefix
                         (events children nameSoFar))%list, st)) /\
  countChildren children = Return (length (visited children)) /\
  (forall (State : Type) (fn : ForEachFunc State) ctx st,
     forEachChildren children fn ctx st =
     Return (fold_left (callAt fn ctx) (indexed (visited children)) st)) /\
  length (indexed (visited children)) = length (visited children) /\
  exists entries,
    toArray children = Return (VArray entries) /\
    Forall2 entryOf (filter notNull (visited children)) entries /\
    length entries <= length (visited children) /\
    (Forall (fun leaf => notNull leaf = true) (visited children) ->
     length entries = length (visited children)).
Proof.
  intro Hvalid. repeat split.
  - intros State array pre name st. unfold nestingBound.
    now rewrite mapIntoArray_identity_entries, Hvalid.
  - change (countChildren children)
      with (forEachChildren children (fun _ _ _ n => S n) VUndefined 0).
    rewrite forEachChildren_walk, Hvalid. unfold indexed.
    now rewrite fold_callAt_count.
  - intros State fn ctx st. now rewrite forEachChildren_walk, Hvalid.
  - unfold indexed, indexedFrom. rewrite length_combine, length_seq. lia.
  - exists (entriesOf EmptyString (events children EmptyString)).
    assert (HF : Forall2 entryOf (filter notNull (visited children))
                   (entriesOf EmptyString (events children EmptyString))).
    { rewrite visited_filter, <- (events_visited children EmptyString).
      apply entriesOf_entryOf. }
    repeat split.
    + now rewrite toArray_walk, Hvalid.
    + exact HF.
    + rewrite <- (Forall2_length_eq _ _ _ HF). apply filter_length_le.
    + intro Hnn. rewrite <- (Forall2_length_eq _ _ _ HF).
      now rewrite filter_all.
Qed.

Lemma traversals_agree_witness :
  let children := VArray [leafA; VNull; VIterable [VString "b"; VBool true]] in
  invalidChildren children = [] /\
  countChildren children = Return 4 /\
  forEachChildren children (fun _ child index log => (index, child) :: log)
    VUndefined [] =
  Return [(3, VNull); (2, VString "b"); (1, VNull); (0, leafA)] /\
  toArray children =
  Return (VArray [cloneAndReplaceKey leafA ".$x"; VString "b"]).
Proof.
  intro children.
  destruct (traversals_agree children eq_refl)
    as (_ & Hcount & Heach & _ & _).
  split; [reflexivity|]. split; [exact Hcount|].
  split; [exact (Heach _ _ VUndefined []) | reflexivity].
Defined.

Lemma occurs_array {State : Type} (escapedPrefix : string)
    (callback : Callback State) (children : value) (st : State) :
  occurs escapedPrefix callback ->
  invokeCallback children = true ->
  isArray (fst (callback (normalize children) st)) = true ->
  escapedPrefix = EmptyString.
Proof.
  intros [cb|pre] Hleaf Harr; [reflexivity|].
  simpl in Harr. rewrite leaf_not_array in Harr by assumption. discriminate.
Qed.

Lemma eachChild_agree {State : Type}
    (visit visit' : value -> list value -> string -> string ->
                    Callback State -> State ->
                    outcome (nat * list value * State))
    pre prefix (cb : Callback State) items :
  Forall (fun c => forall array name st,
            visit c array pre name cb st = visit' c array pre name cb st)
    items ->
  forall i acc array st,
    eachChild visit pre prefix cb items i acc array st =
    eachChild visit' pre prefix cb items i acc array st.
Proof.
  induction 1 as [|c items Hc _ IH]; intros i acc array st; [reflexivity|].
  cbn [eachChild]. rewrite Hc.
  destruct (visit' c array pre (prefix ++ getElementKey c i) cb st)
    as [[[k a] s]| |]; cbn [bind]; auto.
Qed.

Lemma mapIntoArrayCarrying_leaf {State : Type} n children array pre name
    (cb : Callback State) st :
  invokeCallback children = true ->
  mapIntoArrayCarrying (S n) children array pre name cb st =
  let child := normalize children in
  let childKey := if String.eqb name EmptyString
                  then SEPARATOR ++ getElementKey child 0 else name in
  if isArray (fst (cb child st)) then
    let* (_, array', st') :=
      mapIntoArrayCarrying n (fst (cb child st)) array
        (pre ++ escapeUserProvidedKey childKey ++ "/") EmptyString identity
        (snd (cb child st)) in
    Return (1, array', st')
  else
    let* (array', st') :=
      emit n pre child childKey (fst (cb child st)) array
        (snd (cb child st)) in
    Return (1, array', st').
Proof.
  intro Hleaf.
  destruct children; simpl in Hleaf; try discriminate;
    try match goal with e : element |- _ => destruct e as [[] k0 a0] end;
    cbn -[emit]; unfold emit;
    match goal with
    | |- context [cb ?c st] => destruct (cb c st) as [m st1]
    end;
    cbn [fst snd];
    (destruct (isArray m); [reflexivity|]);
    destruct (negb (looseNull m)); reflexivity.
Qed.

Lemma mapIntoArrayCarrying_agrees_leaf {State : Type} (n : nat)
    (IHn : forall children array pre name (cb : Callback State) st,
        occurs pre cb ->
        mapIntoArrayCarrying n children array pre name cb st =
        mapIntoArray n children array pre name cb st)
    children array pre name (cb : Callback State) st :
  occurs pre cb ->
  invokeCallback children = true ->
  mapIntoArrayCarrying (S n) children array pre name cb st =
  mapIntoArray (S n) children array pre name cb st.
Proof.
  intros Hocc Hleaf.
  rewrite mapIntoArrayCarrying_leaf, mapIntoArray_leaf by assumption.
  cbv zeta.
  destruct (isArray (fst (cb (normalize children) st))) eqn:Harr;
    [|reflexivity].
  rewrite (occurs_array pre cb _ st Hocc Hleaf Harr).
  rewrite IHn by constructor.
  unfold emit. rewrite Harr. cbn [append].
  match goal with
  | |- context [mapIntoArray n ?a ?b ?c ?d ?e ?f] =>
      destruct (mapIntoArray n a b c d e f) as [[[k a1] s1]| |]
  end; reflexivity.
Qed.

Lemma mapIntoArrayCarrying_agrees {State : Type} (n : nat) :
  forall children array pre name (cb : Callback State) st,
    occurs pre cb ->
    mapIntoArrayCarrying n children array pre name cb st =
    mapIntoArray n children array pre name cb st.
Proof.
  induction n as [|n IHn]; [reflexivity|].
  intros children array pre name cb st Hocc. revert array name st.
  induction children
    as [| | b | z | s | e | items IH | items IH | str keys | thrown keys |]
    using value_nested_ind; intros array name st;
    try (apply mapIntoArrayCarrying_agrees_leaf; auto; reflexivity);
    try reflexivity.
  - apply mapIntoArrayCarrying_agrees_leaf; auto.
    destruct e as [[] k a]; reflexivity.
  - change (eachChild (mapIntoArrayCarrying (S n)) pre
              (if String.eqb name EmptyString then SEPARATOR
               else name ++ SUBSEPARATOR) cb items 0 0 array st =
            eachChild (mapIntoArray (S n)) pre
              (if String.eqb name EmptyString then SEPARATOR
               else name ++ SUBSEPARATOR) cb items 0 0 array st).
    apply eachChild_agree. exact IH.
  - change (eachChild (mapIntoArrayCarrying (S n)) pre
              (if String.eqb name EmptyString then SEPARATOR
               else name ++ SUBSEPARATOR) cb items 0 0 array st =
            eachChild (mapIntoArray (S n)) pre
              (if String.eqb name EmptyString then SEPARATOR
               else name ++ SUBSEPARATOR) cb items 0 0 array st).
    apply eachChild_agree. exact IH.
Qed.

(** C2.  In every call of the flattener that occurs (see [occurs]), whenever
    the callback returns an array for a leaf, the flattener flattens that
    array with the escaped prefix
    [escapedPrefix + escapeUserProvidedKey(childKey) + '/'], with
    [nameSoFar] reset to the empty string and the callback [c => c]: the
    leaves of the array are appended, its elements cloned under that prefix
    followed by their own name, and the call counts as one leaf.  The
    flattener that the design document words, which carries the old prefix
    along, agrees with [mapIntoArray] on every call that occurs, and
    [mapChildren] over it is [mapChildren]. *)
Theorem callback_array_reflattened :
  (forall (State : Type) (n : nat) (children : value) (array : list value)
          (escapedPrefix nameSoFar : string) (callback : Callback State)
          (st : State) (items : list value) (st' : State),
     occurs escapedPrefix callback ->
     invokeCallback children = true ->
     callback (normalize children) st = (VArray items, st') ->
     let childKey :=
       if String.eqb nameSoFar EmptyString
       then SEPARATOR ++ getElementKey (normalize children) 0
       else nameSoFar in
     let escapedChildKey :=
       escapedPrefix ++ escapeUserProvidedKey childKey ++ "/" in
     mapIntoArray (S n) children array escapedPrefix nameSoFar callback st =
     (let* (_, array', st'') :=
        mapIntoArray n (VArray items) array escapedChildKey EmptyString
          identity st' in
      Return (1, array', st'')) /\
     mapIntoArray (2 + n) children array escapedPrefix nameSoFar callback st =
     match invalidChildren (VArray items) with
     | [] =>
         Return (1, (array ++ entriesOf escapedChildKey
                                (events (VArray items) EmptyString))%list,
                 st')
     | o :: _ => Throw (rejection o)
     end) /\
  (forall (State : Type) (n : nat) (children : value) (array : list value)
          (escapedPrefix nameSoFar : string) (callback : Callback State)
          (st : State),
     occurs escapedPrefix callback ->
     mapIntoArrayCarrying n children array escapedPrefix nameSoFar
       callback st =
     mapIntoArray n children array escapedPrefix nameSoFar callback st) /\
  (forall (State : Type) (children : value) (func : MapFunc State)
          (context : value) (st : State),
     mapChildrenCarrying children func context st =
     mapChildren children func context st).
Proof.
  split; [|split].
  - intros State n children array escapedPrefix nameSoFar callback st
      items st' Hocc Hleaf Hcb childKey escapedChildKey.
    assert (Hpre : escapedPrefix = EmptyString).
    { eapply occurs_array; eauto. now rewrite Hcb. }
    assert (E : forall k,
      mapIntoArray (S k) children array escapedPrefix nameSoFar callback st =
      (let* (_, array', st'') :=
         mapIntoArray k (VArray items) array escapedChildKey EmptyString
           identity st' in
       Return (1, array', st''))).
    { intro k. rewrite mapIntoArray_leaf by assumption. cbv zeta.
      rewrite Hcb. cbn [fst snd]. unfold emit. cbn [isArray].
      subst escapedChildKey childKey. rewrite Hpre. cbn [append].
      match goal with
      | |- context [mapIntoArray k ?a ?b ?c ?d ?e ?f] =>
          destruct (mapIntoArray k a b c d e f) as [[[c0 a0] s0]| |]
      end; reflexivity. }
    split; [apply E|].
    cbn [Nat.add]. rewrite E, mapIntoArray_identity_entries.
    destruct (invalidChildren (VArray items)); reflexivity.
  - intros State n children array escapedPrefix nameSoFar callback st.
    apply mapIntoArrayCarrying_agrees.
  - intros State children func context st.
    unfold mapChildrenCarrying, mapChildren.
    destruct (looseNull children); [reflexivity|].
    rewrite mapIntoArrayCarrying_agrees by constructor. reflexivity.
Qed.

Lemma callback_array_reflattened_witness :
  occurs EmptyString
    (fun (_ : value) (st : unit) => (VArray [leafB; VString "s"], st)) /\
  invokeCallback leafA = true /\
  mapIntoArray 2 leafA [] EmptyString EmptyString
    (fun (_ : value) (st : unit) => (VArray [leafB; VString "s"], st)) tt =
  Return (1, [cloneAndReplaceKey leafB ".$x/.0"; VString "s"], tt).
Proof.
  split; [constructor|]. split; [reflexivity|].
  exact (proj2 (proj1 callback_array_reflattened unit 0 leafA [] EmptyString
                  EmptyString
                  (fun (_ : value) (st : unit) =>
                     (VArray [leafB; VString "s"], st)) tt
                  [leafB; VString "s"] tt
                  (occurs_mapChildren _) eq_refl eq_refl)).
Defined.

(** C10.  Whenever the callback returns, for a leaf, a value that is neither
    null nor undefined, nor an array, nor a recognized leaf, the flattener
    appends that very value to the array and returns 1: nothing is cloned or
    re-keyed and nothing is thrown, plain objects included. *)
Theorem mapped_value_appended_unchanged {State : Type} (n : nat)
    (children : value)
    (array : list value) (escapedPrefix nameSoFar : string)
    (callback : Callback State) (st : State)
    (mappedChild : value) (st' : State) :
  invokeCallback children = true ->
  callback (normalize children) st = (mappedChild, st') ->
  looseNull mappedChild = false ->
  isArray mappedChild = false ->
  isValidElement mappedChild = false ->
  mapIntoArray (S n) children array escapedPrefix nameSoFar callback st =
  Return (1, push array mappedChild, st').
Proof.
  intros Hleaf Hcb Hnn Harr Hel.
  rewrite mapIntoArray_leaf by assumption. cbv zeta.
  rewrite Hcb. cbn [fst snd]. unfold emit. rewrite Harr, Hnn, Hel. reflexivity.
Qed.

Lemma mapped_value_appended_unchanged_witness :
  let object := VObject "[object Object]" ["a"] in
  invokeCallback (VString "s") = true /\
  looseNull object = false /\ isArray object = false /\
  isValidElement object = false /\
  mapIntoArray 1 (VString "s") [VNumber 7] "P" "n"
    (fun (_ : value) (st : nat) => (object, S st)) 0 =
  Return (1, [VNumber 7; object], 1).
Proof.
  intro object. do 4 (split; [reflexivity|]).
  exact (mapped_value_appended_unchanged 0 (VString "s") [VNumber 7] "P" "n"
           (fun (_ : value) (st : nat) => (object, S st)) 0
           object 1 eq_refl eq_refl eq_refl eq_refl eq_refl).
Defined.

(** C5, as stated, fails: a leaf wrapped in an array is rejected. *)
Lemma only_rejects_wrapped_leaf :
  onlyChild (VArray [leafA]) = Throw NotSingleElement /\
  onlyChild (VArray [leafA]) <> Return leafA.
Proof. split; [reflexivity | discriminate]. Qed.

(** C5, amended.  [onlyChild children] returns [children] unchanged when
    [children] is itself one leaf, and fails with NotSingleElement
    otherwise; in particular [only(leafA)] returns [leafA], while every
    array fails, [[leafA]], [[leafA, leafB]] and [[]] among them. *)
Theorem only_accepts_a_lone_leaf :
  (forall children,
     onlyChild children =
     if isValidElement children then Return children
     else Throw NotSingleElement) /\
  onlyChild leafA = Return leafA /\
  (forall items, onlyChild (VArray items) = Throw NotSingleElement) /\
  onlyChild (VArray [leafA]) = Throw NotSingleElement /\
  onlyChild (VArray [leafA; leafB]) = Throw NotSingleElement /\
  onlyChild (VArray []) = Throw NotSingleElement /\
  onlyChild VNull = Throw NotSingleElement.
Proof.
  repeat split.
  intro children. unfold onlyChild, invariant.
  destruct (isValidElement children); reflexivity.
Qed.

(** C8.  A leaf passed as the whole children is given the key
    [SEPARATOR ++ getElementKey child 0], which is the name it has as the
    only element of an array: the walks of [leaf] and of [[leaf]] are the
    same, the flattener returns the same on both under every callback, and
    [toArray] returns the same entries, with the same keys. *)
Theorem lone_leaf_keyed_as_singleton (leaf : value) :
  invokeCallback leaf = true ->
  events leaf EmptyString =
    [Visit (normalize leaf) (SEPARATOR ++ getElementKey (normalize leaf) 0)] /\
  events (VArray [leaf]) EmptyString = events leaf EmptyString /\
  (forall (State : Type) n array escapedPrefix
          (callback : Callback State) st,
     mapIntoArray n (VArray [leaf]) array escapedPrefix EmptyString callback
       st =
     mapIntoArray n leaf array escapedPrefix EmptyString callback st) /\
  toArray (VArray [leaf]) = toArray leaf /\
  toArray leaf =
    Return (VArray (entry EmptyString (normalize leaf)
                      (SEPARATOR ++ getElementKey (normalize leaf) 0))).
Proof.
  intro Hleaf.
  assert (E1 : events leaf EmptyString =
    [Visit (normalize leaf) (SEPARATOR ++ getElementKey (normalize leaf) 0)]).
  { destruct leaf; simpl in Hleaf; try discriminate;
      try match goal with e : element |- _ => destruct e as [[] k0 a0] end;
      reflexivity. }
  assert (E2 : events (VArray [leaf]) EmptyString = events leaf EmptyString).
  { destruct leaf; simpl in Hleaf; try discriminate;
      try match goal with e : element |- _ => destruct e as [[] [k0|] a0] end;
      reflexivity. }
  assert (Hvalid : invalidChildren leaf = []).
  { destruct leaf; simpl in Hleaf; try discriminate; reflexivity. }
  split; [exact E1|]. split; [exact E2|]. split; [|split].
  - intros State [|n] array pre cb st; [reflexivity|].
    rewrite !mapIntoArray_run. now rewrite E2.
  - rewrite !toArray_walk. cbn [invalidChildren flat_map].
    rewrite app_nil_r, Hvalid. now rewrite E2.
  - rewrite toArray_walk, Hvalid, E1.
    cbn [entriesOf flat_map]. now rewrite app_nil_r.
Qed.

Lemma lone_leaf_keyed_as_singleton_witness :
  invokeCallback leafA = true /\
  toArray (VArray [leafA]) = toArray leafA /\
  toArray leafA = Return (VArray [cloneAndReplaceKey leafA ".$x"]).
Proof.
  destruct (lone_leaf_keyed_as_singleton leafA eq_refl)
    as (_ & _ & _ & Hsame & Hkey).
  split; [reflexivity|]. split; [exact Hsame | exact Hkey].
Defined.

(** C9.  A boolean passed as children is replaced by null and treated as
    one null leaf: [mapChildren] calls the function exactly once, on null
    with index 0, and goes on with what it returned; [forEachChildren] calls
    its function exactly once likewise; [countChildren] returns 1 and
    [toArray] the empty array.  On null and undefined no function is called:
    [mapChildren] returns the value it was given, and [countChildren]
    returns 0. *)
Theorem boolean_children_are_one_null_leaf (b : bool) :
  normalize (VBool b) = VNull /\
  visited (VBool b) = [VNull] /\
  (forall (State : Type) (func : MapFunc State) ctx st,
     mapChildren (VBool b) func ctx st =
     let* (result, cst) :=
       emit 1 EmptyString VNull (SEPARATOR ++ getElementKey VNull 0)
         (fst (func ctx VNull 0 st)) [] (1, snd (func ctx VNull 0 st)) in
     Return (VArray result, snd cst)) /\
  (forall (State : Type) (fn : ForEachFunc State) ctx st,
     forEachChildren (VBool b) fn ctx st = Return (fn ctx VNull 0 st)) /\
  countChildren (VBool b) = Return 1 /\
  toArray (VBool b) = Return (VArray []) /\
  (forall (State : Type) (func : MapFunc State) ctx st,
     mapChildren VNull func ctx st = Return (VNull, st) /\
     mapChildren VUndefined func ctx st = Return (VUndefined, st)) /\
  (forall (State : Type) (fn : ForEachFunc State) ctx st,
     forEachChildren VNull fn ctx st = Return st /\
     forEachChildren VUndefined fn ctx st = Return st) /\
  countChildren VNull = Return 0 /\
  countChildren VUndefined = Return 0.
Proof.
  split; [reflexivity|]. split; [reflexivity|]. split; [|repeat split].
  intros State func ctx st.
  rewrite mapChildren_run by reflexivity.
  change (events (VBool b) EmptyString)
    with [Visit VNull (SEPARATOR ++ getElementKey VNull 0)].
  cbn [run counting].
  destruct (func ctx VNull 0 st) as [m st1]. cbn [fst snd].
  destruct (emit 1 EmptyString VNull (SEPARATOR ++ getElementKey VNull 0) m []
              (1, st1)) as [[a s]| |]; reflexivity.
Qed.

(** *** Rejected objects *)






Lemma InvalidChildType_message found :
  InvalidChildType found =
  Error ("Objects are not valid as a React child (found: " ++ found ++
         "). If you meant to render a collection of children, use an array " ++
         "instead.").
Proof. reflexivity. Qed.




(* ================================================================== *)
(** ** Key fragments *)
(* ================================================================== *)

Lemma digitValue_digit36 (d : nat) :
  d < 36 -> digitValue (digit36 d) = Some d.
Proof.
  intro H.
  do 36 (destruct d as [|d]; [reflexivity|]).
  lia.
Qed.

Lemma parse36_toString36_from (fuel : nat) :
  forall n acc, n < fuel ->
    parse36 (toString36_from fuel n acc) 0 = parse36 acc n.
Proof.
  induction fuel as [|fuel IH]; intros n acc Hn; [lia|].
  cbn [toString36_from].
  destruct (n <? 36)%nat eqn:Hlt.
  - apply Nat.ltb_lt in Hlt. rewrite Nat.mod_small by assumption.
    cbn [parse36]. now rewrite digitValue_digit36.
  - apply Nat.ltb_ge in Hlt.
    rewrite IH.
    + cbn [parse36].
      rewrite digitValue_digit36 by (apply Nat.mod_upper_bound; lia).
      f_equal. rewrite (Nat.div_mod_eq n 36) at 3. lia.
    + assert (n / 36 < n) by (apply Nat.div_lt; lia). lia.
Qed.

Lemma parse36_toString36 (index : nat) :
  parse36 (toString36 index) 0 = Some index.
Proof.
  unfold toString36. now rewrite parse36_toString36_from by lia.
Qed.

(** X1.  [index.toString(36)] tells indices apart: two different indices
    have different numerals. *)
Theorem toString36_injective (i j : nat) :
  i <> j -> toString36 i <> toString36 j.
Proof.
  intros Hij H. apply Hij.
  assert (E : Some i = Some j)
    by (rewrite <- (parse36_toString36 i), <- (parse36_toString36 j);
        now rewrite H).
  now injection E.
Qed.

Lemma toString36_injective_witness :
  1 <> 36 /\ toString36 1 <> toString36 36.
Proof.
  assert (H : 1 <> 36) by discriminate.
  split; [exact H | exact (toString36_injective 1 36 H)].
Defined.

Lemma toString36_from_digits (fuel : nat) :
  forall n acc,
    allChars isDigit36 acc = true ->
    allChars isDigit36 (toString36_from fuel n acc) = true.
Proof.
  induction fuel as [|fuel IH]; intros n acc Hacc; [exact Hacc|].
  cbn [toString36_from].
  assert (Hd : allChars isDigit36 (String (digit36 (n mod 36)) acc) = true).
  { cbn [allChars]. unfold isDigit36.
    rewrite digitValue_digit36 by (apply Nat.mod_upper_bound; lia).
    exact Hacc. }
  destruct (n <? 36)%nat; [exact Hd | now apply IH].
Qed.

Lemma toString36_digits (index : nat) :
  allChars isDigit36 (toString36 index) = true.
Proof. apply toString36_from_digits. reflexivity. Qed.

Lemma toString36_nonempty (index : nat) : toString36 index <> EmptyString.
Proof.
  intro H. pose proof (parse36_toString36 index) as Hp.
  rewrite H in Hp. simpl in Hp. injection Hp as Hp. subst index.
  discriminate.
Qed.

Lemma digits_exclude (c : ascii) (s : string) :
  isDigit36 c = false ->
  allChars isDigit36 s = true ->
  Str.contains c s = false.
Proof.
  intros Hc. induction s as [|d s IH]; simpl; [reflexivity|].
  intro H. apply andb_true_iff in H as [Hd Hs].
  rewrite (IH Hs), orb_false_r.
  apply Ascii.eqb_neq. intros ->. congruence.
Qed.

Lemma getElementKey_cases (element : value) (index : nat) :
  getElementKey element index =
  match keyOf element with
  | Some k => escape k
  | None => toString36 index
  end.
Proof. destruct element; reflexivity. Qed.

Lemma escape_not_numeral (k : string) (index : nat) :
  escape k <> toString36 index.
Proof.
  intro H.
  assert (Hc : Str.contains "$" (toString36 index) = false)
    by (apply digits_exclude; [reflexivity | apply toString36_digits]).
  rewrite <- H in Hc. discriminate.
Qed.

Lemma getElementKey_eq (a b : value) (i j : nat) :
  getElementKey a i = getElementKey b j ->
  keyOf a = keyOf b /\ (keyOf a = None -> i = j).
Proof.
  rewrite !getElementKey_cases.
  destruct (keyOf a) as [ka|], (keyOf b) as [kb|]; intro H.
  - split; [|discriminate]. f_equal.
    unfold escape in H. injection H as H.
    now apply replaceChars_escaper_inj.
  - now apply escape_not_numeral in H.
  - symmetry in H. now apply escape_not_numeral in H.
  - split; [reflexivity|]. intros _.
    destruct (Nat.eq_dec i j) as [E|N]; [exact E|].
    exfalso. revert H.
    assert (Some i <> Some j) as Hne by congruence.
    intro H. apply Hne.
    rewrite <- (parse36_toString36 i), <- (parse36_toString36 j).
    now rewrite H.
Qed.

(** X2.  Two children of a container are given the same key fragment only
    if they carry the same explicit key, or carry none and have the same
    index: fragments made from keys and fragments made from indices never
    meet, escaped keys tell keys apart and numerals tell indices apart. *)
Theorem getElementKey_collision (a b : value) (i j : nat) :
  getElementKey a i = getElementKey b j ->
  keyOf a = keyOf b /\ (keyOf a = None -> i = j).
Proof. apply getElementKey_eq. Qed.

Lemma getElementKey_collision_witness :
  getElementKey leafA 0 = getElementKey leafA 7 /\
  keyOf leafA = keyOf leafA.
Proof.
  split; [reflexivity|].
  exact (proj1 (getElementKey_collision leafA leafA 0 7 eq_refl)).
Defined.

Lemma getElementKey_shape (element : value) (index : nat) :
  getElementKey element index <> EmptyString /\
  Str.contains ":" (getElementKey element index) = false.
Proof.
  rewrite getElementKey_cases.
  destruct (keyOf element) as [k|].
  - split; [discriminate|]. unfold escape. simpl. apply escaped_no_colon.
  - split; [apply toString36_nonempty|].
    apply digits_exclude; [reflexivity | apply toString36_digits].
Qed.

(** X3.  A key fragment is never empty and never contains the secondary
    separator ':', whatever the key: a name can be split into its fragments
    at the separators the flattener wrote. *)
Theorem getElementKey_fragment (element : value) (index : nat) :
  getElementKey element index <> EmptyString /\
  Str.contains ":" (getElementKey element index) = false.
Proof. apply getElementKey_shape. Qed.

(* ================================================================== *)
(** ** Names are unique *)
(* ================================================================== *)

Lemma append_assoc (a b c : string) : (a ++ b) ++ c = a ++ b ++ c.
Proof. induction a as [|x a IH]; simpl; [reflexivity | now rewrite IH]. Qed.

Lemma append_cancel (p a b : string) : p ++ a = p ++ b -> a = b.
Proof.
  induction p as [|x p IH]; simpl; intro H; [exact H|].
  injection H as H. auto.
Qed.

Lemma fragment_determined (f g t u : string) :
  Str.contains ":" f = false ->
  Str.contains ":" g = false ->
  tailLike t -> tailLike u ->
  f ++ t = g ++ u -> f = g.
Proof.
  revert g. induction f as [|x f IH]; intros [|y g] Hf Hg Ht Hu H.
  - reflexivity.
  - simpl in H, Hg. apply orb_false_iff in Hg as [Hy _].
    destruct Ht as [->|[rest ->]]; [discriminate|].
    simpl in H. injection H as H _. subst y. discriminate.
  - simpl in H, Hf. apply orb_false_iff in Hf as [Hx _].
    destruct Hu as [->|[rest ->]]; [discriminate|].
    simpl in H. injection H as H _. subst x. discriminate.
  - simpl in H, Hf, Hg. injection H as Hxy H. subst y.
    apply orb_false_iff in Hf as [_ Hf]. apply orb_false_iff in Hg as [_ Hg].
    f_equal. eapply IH; eauto.
Qed.

Lemma extends_tail (name k : string) :
  extends name k -> exists t, tailLike t /\ k = name ++ t.
Proof.
  intros [->|[rest ->]].
  - exists EmptyString. split; [now left|].
    induction name as [|x name IH]; simpl; [reflexivity | now rewrite <- IH].
  - exists (SUBSEPARATOR ++ rest). split; [right; eauto | reflexivity].
Qed.

Lemma extends_apart (prefix f g k : string) :
  Str.contains ":" f = false ->
  Str.contains ":" g = false ->
  extends (prefix ++ f) k -> extends (prefix ++ g) k -> f = g.
Proof.
  intros Hf Hg Hk1 Hk2.
  destruct (extends_tail _ _ Hk1) as (t & Ht & E1).
  destruct (extends_tail _ _ Hk2) as (u & Hu & E2).
  rewrite E1, !append_assoc in E2. apply append_cancel in E2.
  exact (fragment_determined f g t u Hf Hg Ht Hu E2).
Qed.

Lemma extends_below (name f k : string) :
  extends ((name ++ SUBSEPARATOR) ++ f) k -> extends name k.
Proof.
  intros [->|[rest ->]]; right.
  - exists f. now rewrite append_assoc.
  - exists (f ++ SUBSEPARATOR ++ rest). now rewrite !append_assoc.
Qed.

Lemma names_app (es1 es2 : list event) :
  names (es1 ++ es2) = (names es1 ++ names es2)%list.
Proof. apply flat_map_app. Qed.

Lemma fragments_from (items : list value) :
  forall i f, In f (fragments items i) ->
    exists c j, In c items /\ i <= j /\ f = getElementKey c j.
Proof.
  induction items as [|c items IH]; intros i f Hin; [contradiction|].
  destruct Hin as [<-|Hin].
  - exists c, i. repeat split; auto. now left.
  - destruct (IH _ _ Hin) as (c' & j & Hc' & Hj & ->).
    exists c', j. repeat split; auto; [now right | lia].
Qed.

Lemma each_names_extend (prefix : string) (items : list value) :
  Forall (fun c => forall name, name <> EmptyString ->
            forall k, In k (names (events c name)) -> extends name k) items ->
  forall i k, In k (names (eachEvents events prefix items i)) ->
    exists f, In f (fragments items i) /\ extends (prefix ++ f) k.
Proof.
  induction 1 as [|c items Hc _ IH]; intros i k Hin; [contradiction|].
  cbn [eachEvents] in Hin. rewrite names_app in Hin.
  apply in_app_or in Hin as [Hin|Hin].
  - exists (getElementKey c i). split; [now left|].
    apply Hc; [|exact Hin].
    destruct prefix; [|discriminate]. simpl.
    apply (proj1 (getElementKey_shape c i)).
  - destruct (IH _ _ Hin) as (f & Hf & He).
    exists f. split; [now right | exact He].
Qed.

Lemma events_names_extend (children : value) :
  forall name, name <> EmptyString ->
    forall k, In k (names (events children name)) -> extends name k.
Proof.
  induction children
    as [| | b | z | s | e | items IH | items IH | str keys | thrown keys |]
    using value_nested_ind; intros name Hname k Hin;
    try (apply String.eqb_neq in Hname; simpl in Hin; rewrite Hname in Hin;
         destruct Hin as [<-|[]]; now left);
    try contradiction.
  - apply String.eqb_neq in Hname. destruct e as [[] ke a]; simpl in Hin;
      rewrite Hname in Hin; destruct Hin as [<-|[]]; now left.
  - cbn [events invokeCallback] in Hin. simpl in Hin.
    apply String.eqb_neq in Hname. rewrite Hname in Hin.
    destruct (each_names_extend _ _ IH _ _ Hin) as (f & _ & He).
    eapply extends_below; eauto.
  - cbn [events invokeCallback] in Hin. simpl in Hin.
    apply String.eqb_neq in Hname. rewrite Hname in Hin.
    destruct (each_names_extend _ _ IH _ _ Hin) as (f & _ & He).
    eapply extends_below; eauto.
Qed.

Lemma distinctStrings_NoDup (l : list string) :
  distinctStrings l = true -> NoDup l.
Proof.
  induction l as [|k l IH]; simpl; intro H; constructor.
  - apply andb_true_iff in H as [H _]. apply negb_true_iff in H.
    intro Hin. assert (E : existsb (String.eqb k) l = true).
    { apply existsb_exists. exists k.
      split; [exact Hin | apply String.eqb_refl]. }
    congruence.
  - apply andb_true_iff in H as [_ H]. auto.
Qed.

Lemma explicitKeys_In (c : value) (k : string) (items : list value) :
  In c items -> keyOf c = Some k -> In k (explicitKeys items).
Proof.
  intros Hin Hk. unfold explicitKeys. apply in_flat_map.
  exists c. split; [exact Hin|]. rewrite Hk. now left.
Qed.

Lemma fragments_NoDup (items : list value) :
  NoDup (explicitKeys items) -> forall i, NoDup (fragments items i).
Proof.
  induction items as [|c items IH]; intros Hk i; [constructor|].
  cbn [fragments]. constructor.
  - intro Hin. destruct (fragments_from _ _ _ Hin) as (c' & j & Hc' & Hj & E).
    destruct (getElementKey_eq _ _ _ _ E) as [Hkeys Hindex].
    destruct (keyOf c) as [k|] eqn:Hc.
    + unfold explicitKeys in Hk. cbn [flat_map] in Hk. rewrite Hc in Hk.
      inversion Hk as [|? ? Hnot _]. apply Hnot.
      eapply explicitKeys_In; eauto.
    + specialize (Hindex eq_refl). lia.
  - apply IH. unfold explicitKeys in Hk. cbn [flat_map] in Hk.
    eapply NoDup_app_remove_l. exact Hk.
Qed.

Lemma fragments_no_colon (items : list value) :
  forall i f, In f (fragments items i) -> Str.contains ":" f = false.
Proof.
  intros i f Hin. destruct (fragments_from _ _ _ Hin) as (c & j & _ & _ & ->).
  apply getElementKey_shape.
Qed.

Lemma each_names_NoDup (prefix : string) (items : list value) :
  prefix <> EmptyString ->
  Forall (fun c => keysDistinct c = true ->
            forall name, NoDup (names (events c name))) items ->
  forallb keysDistinct items = true ->
  forall i, NoDup (fragments items i) ->
    NoDup (names (eachEvents events prefix items i)).
Proof.
  intros Hprefix. induction 1 as [|c items Hc _ IH]; intros Hall i Hfr.
  - constructor.
  - cbn [forallb] in Hall. apply andb_true_iff in Hall as [Hcd Hall].
    cbn [fragments] in Hfr. inversion Hfr as [|? ? Hnot Hfr']. subst.
    cbn [eachEvents]. rewrite names_app. apply NoDup_app.
    + now apply Hc.
    + now apply IH.
    + intros k Hk1 Hk2.
      assert (Hname : prefix ++ getElementKey c i <> EmptyString)
        by (destruct prefix; [congruence | discriminate]).
      pose proof (events_names_extend c _ Hname k Hk1) as He1.
      assert (Hextend : Forall (fun c => forall name, name <> EmptyString ->
                forall k, In k (names (events c name)) -> extends name k) items)
        by (apply Forall_forall; intros; eapply events_names_extend; eauto).
      destruct (each_names_extend prefix items Hextend _ _ Hk2)
        as (g & Hg & He2).
      assert (E : getElementKey c i = g).
      { eapply extends_apart; eauto.
        - apply getElementKey_shape.
        - eapply fragments_no_colon; eauto. }
      apply Hnot. now rewrite E.
Qed.

Lemma names_NoDup (children : value) :
  keysDistinct children = true ->
  forall name, NoDup (names (events children name)).
Proof.
  induction children
    as [| | b | z | s | e | items IH | items IH | str keys | thrown keys |]
    using value_nested_ind; intros Hd name;
    try (simpl; repeat constructor; simpl; tauto);
    try (simpl; constructor).
  - destruct e as [[] ke a]; simpl; repeat constructor; simpl; tauto.
  - cbn [keysDistinct] in Hd. apply andb_true_iff in Hd as [Hk Hall].
    cbn [events invokeCallback]. simpl.
    apply each_names_NoDup; auto.
    + destruct (String.eqb name EmptyString); [discriminate|].
      destruct name; discriminate.
    + apply fragments_NoDup. now apply distinctStrings_NoDup.
  - cbn [keysDistinct] in Hd. apply andb_true_iff in Hd as [Hk Hall].
    cbn [events invokeCallback]. simpl.
    apply each_names_NoDup; auto.
    + destruct (String.eqb name EmptyString); [discriminate|].
      destruct name; discriminate.
    + apply fragments_NoDup. now apply distinctStrings_NoDup.
Qed.

Lemma entry_keys (child : value) (childKey : string) :
  explicitKeys (entry EmptyString child childKey) = [childKey] \/
  explicitKeys (entry EmptyString child childKey) = [].
Proof.
  unfold entry. destruct (looseNull child); [now right|].
  destruct child; simpl; auto.
Qed.

Lemma entries_keys_In (es : list event) (k : string) :
  In k (explicitKeys (entriesOf EmptyString es)) -> In k (names es).
Proof.
  induction es as [|[child childKey|object] es IH]; simpl; auto.
  unfold explicitKeys. rewrite flat_map_app.
  fold (explicitKeys (entry EmptyString child childKey)).
  fold (explicitKeys (entriesOf EmptyString es)).
  intro Hin. apply in_app_or in Hin as [Hin|Hin]; [|right; auto].
  destruct (entry_keys child childKey) as [E|E]; rewrite E in Hin;
    [destruct Hin as [<-|[]]; now left | contradiction].
Qed.

Lemma entries_keys_NoDup (es : list event) :
  NoDup (names es) -> NoDup (explicitKeys (entriesOf EmptyString es)).
Proof.
  induction es as [|[child childKey|object] es IH]; simpl; intro H.
  - constructor.
  - inversion H as [|? ? Hnot H']. subst.
    unfold explicitKeys. rewrite flat_map_app.
    fold (explicitKeys (entry EmptyString child childKey)).
    fold (explicitKeys (entriesOf EmptyString es)).
    destruct (entry_keys child childKey) as [E|E]; rewrite E; simpl; auto.
    constructor; auto. intro Hin. apply Hnot. now apply entries_keys_In.
  - auto.
Qed.

(** X4.  Names are unique: when no two children of one array or iterable
    carry the same explicit key, the walk gives the leaves pairwise different
    names, and the elements that [toArray] returns have pairwise different
    keys. *)
Theorem toArray_keys_distinct (children : value) (entries : list value) :
  keysDistinct children = true ->
  toArray children = Return (VArray entries) ->
  NoDup (names (events children EmptyString)) /\
  NoDup (explicitKeys entries).
Proof.
  intros Hd Harr. split; [now apply names_NoDup|].
  rewrite toArray_walk in Harr.
  destruct (invalidChildren children); [|discriminate].
  injection Harr as <-. apply entries_keys_NoDup. now apply names_NoDup.
Qed.

Lemma toArray_keys_distinct_witness :
  let children :=
    VArray [leafB; VArray [leafB; leafA; leafB]; VIterable [leafB]; leafA] in
  keysDistinct children = true /\
  NoDup [".0"; ".1:0"; ".1:$x"; ".1:2"; ".2:0"; ".$x"].
Proof.
  intro children. split; [reflexivity|].
  exact (proj2 (toArray_keys_distinct children _ eq_refl eq_refl)).
Defined.

(* ================================================================== *)
(** ** The escaper of prefixes *)
(* ================================================================== *)

Lemma escapeUserProvidedKey_startsWith (s : string) :
  Str.startsWith "/" (escapeUserProvidedKey s) = Str.startsWith "/" s.
Proof.
  destruct s as [|c s]; [reflexivity|]. simpl.
  destruct (Ascii.eqb c "/" && negb (Str.startsWith "/" s)); reflexivity.
Qed.

Lemma shortenRuns_escapeUserProvidedKey (s : string) :
  shortenRuns (escapeUserProvidedKey s) = s.
Proof.
  induction s as [|c s IH]; [reflexivity|].
  cbn [escapeUserProvidedKey].
  destruct (Ascii.eqb c "/") eqn:Ec; cbn [andb].
  - apply Ascii.eqb_eq in Ec. subst c.
    destruct (Str.startsWith "/" s) eqn:Es; cbn [negb].
    + cbn [shortenRuns]. rewrite escapeUserProvidedKey_startsWith, Es.
      cbn. now rewrite IH.
    + cbn [shortenRuns Str.startsWith]. cbn.
      rewrite escapeUserProvidedKey_startsWith, Es. cbn. now rewrite IH.
  - cbn [shortenRuns]. rewrite Ec. cbn. now rewrite IH.
Qed.

(** X5.  [escapeUserProvidedKey] is injective: different keys give
    different prefixes for the results of a callback. *)
Theorem escapeUserProvidedKey_injective (a b : string) :
  a <> b -> escapeUserProvidedKey a <> escapeUserProvidedKey b.
Proof.
  intros Hab H. apply Hab.
  rewrite <- (shortenRuns_escapeUserProvidedKey a),
          <- (shortenRuns_escapeUserProvidedKey b).
  now rewrite H.
Qed.

Lemma escapeUserProvidedKey_injective_witness :
  "a/" <> "a//" /\ escapeUserProvidedKey "a/" <> escapeUserProvidedKey "a//".
Proof.
  assert (H : "a/" <> "a//") by discriminate.
  split; [exact H | exact (escapeUserProvidedKey_injective "a/" "a//" H)].
Defined.

Lemma escapeUserProvidedKey_paired (s : string) :
  forall previous, slashesPaired previous (escapeUserProvidedKey s) = true.
Proof.
  induction s as [|c s IH]; intro previous; [reflexivity|].
  cbn [escapeUserProvidedKey].
  destruct (Ascii.eqb c "/") eqn:Ec; cbn [andb].
  - apply Ascii.eqb_eq in Ec. subst c.
    destruct (Str.startsWith "/" s) eqn:Es; cbn [negb].
    + cbn [slashesPaired]. cbn.
      rewrite escapeUserProvidedKey_startsWith, Es, orb_true_r. cbn. apply IH.
    + cbn [slashesPaired Str.startsWith]. cbn.
      rewrite orb_true_r. cbn. apply IH.
  - cbn [slashesPaired]. rewrite Ec. apply IH.
Qed.

(** X6.  In the output of [escapeUserProvidedKey] no '/' stands alone:
    every '/' has another '/' next to it. *)
Theorem escapeUserProvidedKey_no_lone_slash (text : string) :
  slashesPaired false (escapeUserProvidedKey text) = true.
Proof. apply escapeUserProvidedKey_paired. Qed.

(* ================================================================== *)
(** ** What the traversals return *)
(* ================================================================== *)

Lemma flatEntry_pushed (v : value) : flatEntry v = true -> pushed v = true.
Proof.
  unfold flatEntry, pushed. destruct v; try discriminate; reflexivity.
Qed.

Lemma entry_flat (pre : string) (child : value) (childKey : string) :
  invokeCallback child = true /\ normalize child = child ->
  Forall (fun v => flatEntry v = true) (entry pre child childKey).
Proof.
  intros [Hleaf Hnorm]. unfold entry.
  destruct (looseNull child) eqn:Hn; constructor; [|constructor].
  unfold flatEntry.
  destruct child; try discriminate; simpl; try reflexivity.
  destruct e as [[] k a]; reflexivity.
Qed.

Lemma entriesOf_flat (pre : string) (es : list event) :
  Forall (fun c => invokeCallback c = true /\ normalize c = c)
    (visitedOf es) ->
  Forall (fun v => flatEntry v = true) (entriesOf pre es).
Proof.
  induction es as [|[child childKey|object] es IH]; simpl; intro H; auto.
  inversion H as [|? ? Hc Hrest]. subst.
  apply Forall_app. split; [now apply entry_flat | now apply IH].
Qed.

Lemma events_visit_leaves (children : value) (name : string) :
  Forall (fun c => invokeCallback c = true /\ normalize c = c)
    (visitedOf (events children name)).
Proof. rewrite events_visited. apply leaves_are_leaves. Qed.

Lemma emit_pushed {State : Type} n pre child childKey m array (st : State)
    array' st' :
  emit (S n) pre child childKey m array st = Return (array', st') ->
  Forall (fun v => pushed v = true) array ->
  Forall (fun v => pushed v = true) array' /\ st' = st.
Proof.
  unfold emit. destruct (isArray m) eqn:Harr.
  - rewrite mapIntoArray_identity_entries.
    destruct (invalidChildren m); [|discriminate].
    cbn [bind]. intros H Ha. injection H as <- <-. split; [|reflexivity].
    apply Forall_app. split; [exact Ha|].
    eapply Forall_impl; [apply flatEntry_pushed|].
    apply entriesOf_flat, events_visit_leaves.
  - destruct (negb (looseNull m)) eqn:Hn; intros H Ha;
      injection H as <- <-; split; auto.
    apply Forall_app. split; [exact Ha|]. constructor; [|constructor].
    unfold pushed.
    destruct m; try discriminate; reflexivity.
Qed.

Lemma run_pushed {State : Type} n (cb : Callback State) pre es :
  forall array st array' st',
    run (S n) cb pre es array st = Return (array', st') ->
    Forall (fun v => pushed v = true) array ->
    Forall (fun v => pushed v = true) array' /\
    st' = fold_left (fun st c => snd (cb c st)) (visitedOf es) st.
Proof.
  induction es as [|[child childKey|object] es IH];
    intros array st array' st' H Ha.
  - injection H as <- <-. auto.
  - cbn [run] in H. cbn [visitedOf flat_map app fold_left].
    fold (visitedOf es).
    destruct (cb child st) as [m st1]. cbn [snd].
    destruct (emit (S n) pre child childKey m array st1)
      as [[a s]| |] eqn:He; try discriminate.
    cbn [bind] in H.
    destruct (emit_pushed _ _ _ _ _ _ _ _ _ He Ha) as [Ha' ->].
    eapply IH; eauto.
  - discriminate.
Qed.

Lemma counting_fold {State : Type} (func : MapFunc State) ctx xs :
  forall c st,
    fold_left (fun cs child => snd (counting func ctx child cs)) xs (c, st) =
    (c + length xs, fold_left (stateAfter func ctx) (indexedFrom c xs) st).
Proof.
  induction xs as [|x xs IH]; intros c st.
  - simpl. now rewrite Nat.add_0_r.
  - cbn [fold_left]. rewrite indexedFrom_cons. cbn [fold_left].
    unfold counting at 2. unfold stateAfter at 2. cbn [fst snd].
    destruct (func ctx x c st) as [m st1]. cbn [snd].
    rewrite IH. simpl. now rewrite Nat.add_succ_r.
Qed.

Lemma mapChildren_returned {State : Type} children (func : MapFunc State)
    ctx st r st' :
  mapChildren children func ctx st = Return (r, st') ->
  (looseNull children = true /\ r = children /\ st' = st) \/
  (looseNull children = false /\
   exists result,
     r = VArray result /\
     Forall (fun v => pushed v = true) result /\
     st' = fold_left (stateAfter func ctx) (indexed (leaves children)) st).
Proof.
  destruct (looseNull children) eqn:Hnn.
  - unfold mapChildren. rewrite Hnn. intro H. injection H as <- <-. now left.
  - rewrite mapChildren_run by assumption. intro H. right.
    split; [reflexivity|].
    destruct (run 1 (counting func ctx) EmptyString
                (events children EmptyString) [] (0, st))
      as [[a cs]| |] eqn:Hrun; try discriminate.
    cbn [bind] in H. injection H as <- <-.
    destruct (run_pushed _ _ _ _ _ _ _ _ Hrun (Forall_nil _)) as [Ha Hs].
    exists a. repeat split; auto.
    rewrite Hs, events_visited, counting_fold. reflexivity.
Qed.

(** X7.  Whatever the function returns, the array of [mapChildren] is flat:
    it holds no null, no undefined and no array. *)
Theorem mapChildren_result_flat {State : Type} (children : value)
    (func : MapFunc State) (context : value) (st : State)
    (result : list value) (st' : State) :
  mapChildren children func context st = Return (VArray result, st') ->
  Forall (fun v => looseNull v = false /\ isArray v = false) result.
Proof.
  intro H.
  destruct (mapChildren_returned _ _ _ _ _ _ H)
    as [(Hn & E & _)|(_ & res & E & Hp & _)].
  - subst children. discriminate.
  - injection E as <-. eapply Forall_impl; [|exact Hp].
    intros v Hv. unfold pushed in Hv. apply andb_true_iff in Hv as [H1 H2].
    apply negb_true_iff in H1, H2. auto.
Qed.

Lemma mapChildren_result_flat_witness :
  let func := fun (_ child : value) (index : nat) (st : unit) =>
                (if Nat.eqb index 0 then VArray [child; VNull; VArray [child]]
                 else VUndefined, st) in
  mapChildren (VArray [VString "a"; VString "b"]) func VUndefined tt =
    Return (VArray [VString "a"; VString "a"], tt) /\
  Forall (fun v => looseNull v = false /\ isArray v = false)
    [VString "a"; VString "a"].
Proof.
  intro func. split; [reflexivity|].
  exact (mapChildren_result_flat (VArray [VString "a"; VString "b"]) func
           VUndefined tt _ tt eq_refl).
Defined.

(** X8.  When [mapChildren] returns, the function has been called exactly
    once for every leaf of the children, in the order of the walk, with the
    indices 0, 1, 2, ...: the state of its closure is the one these calls
    leave, whatever the function returned.  The leaves of the arrays it
    returned are not passed to it. *)
Theorem mapChildren_calls_once_per_leaf {State : Type} (children : value)
    (func : MapFunc State) (context : value) (st : State)
    (r : value) (st' : State) :
  mapChildren children func context st = Return (r, st') ->
  st' = fold_left (stateAfter func context) (indexed (visited children)) st.
Proof.
  intro H. unfold visited.
  destruct (mapChildren_returned _ _ _ _ _ _ H)
    as [(Hn & _ & ->)|(Hn & res & _ & _ & ->)]; rewrite Hn; reflexivity.
Qed.

Lemma mapChildren_calls_once_per_leaf_witness :
  let func := fun (_ child : value) (index : nat) (log : list (nat * value)) =>
                (VArray [child; child], ((index, child) :: log)%list) in
  mapChildren (VArray [VString "a"; VArray [VNull; VString "b"]]) func
    VUndefined [] =
    Return (VArray [VString "a"; VString "a"; VString "b"; VString "b"],
            [(2, VString "b"); (1, VNull); (0, VString "a")]) /\
  [(2, VString "b"); (1, VNull); (0, VString "a")] =
  fold_left (stateAfter func VUndefined)
    [(0, VString "a"); (1, VNull); (2, VString "b")] [].
Proof.
  intro func. split; [reflexivity|].
  exact (mapChildren_calls_once_per_leaf
           (VArray [VString "a"; VArray [VNull; VString "b"]]) func
           VUndefined [] _ _ eq_refl).
Defined.

(** X9.  [forEachChildren] and [countChildren] do not see how the
    children are nested: an array or an iterable inside an array can be
    replaced by its elements. *)
Theorem nesting_invisible_to_forEach (xs ys zs : list value) :
  (forall (State : Type) (fn : ForEachFunc State) ctx st,
     forEachChildren (VArray (xs ++ VArray ys :: zs)) fn ctx st =
     forEachChildren (VArray (xs ++ ys ++ zs)) fn ctx st /\
     forEachChildren (VArray (xs ++ VIterable ys :: zs)) fn ctx st =
     forEachChildren (VArray (xs ++ ys ++ zs)) fn ctx st) /\
  countChildren (VArray (xs ++ VArray ys :: zs)) =
  countChildren (VArray (xs ++ ys ++ zs)) /\
  countChildren (VArray (xs ++ VIterable ys :: zs)) =
  countChildren (VArray (xs ++ ys ++ zs)).
Proof.
  assert (E : forall (State : Type) (fn : ForEachFunc State) ctx st,
     forEachChildren (VArray (xs ++ VArray ys :: zs)) fn ctx st =
     forEachChildren (VArray (xs ++ ys ++ zs)) fn ctx st /\
     forEachChildren (VArray (xs ++ VIterable ys :: zs)) fn ctx st =
     forEachChildren (VArray (xs ++ ys ++ zs)) fn ctx st).
  { intros State fn ctx st. rewrite !forEachChildren_walk.
    unfold visited. cbn [looseNull invalidChildren leaves].
    rewrite !flat_map_app. cbn [flat_map invalidChildren leaves].
    auto. }
  split; [exact E|].
  split; apply (E nat (fun _ _ _ n => S n) VUndefined 0).
Qed.

Lemma flat_leaves (entries : list value) :
  Forall (fun v => flatEntry v = true) entries ->
  flat_map leaves entries = entries /\
  flat_map invalidChildren entries = [].
Proof.
  induction 1 as [|v entries Hv _ [IH1 IH2]]; [split; reflexivity|].
  cbn [flat_map]. rewrite IH1, IH2.
  unfold flatEntry in Hv.
  destruct v; try discriminate; split; reflexivity.
Qed.

Lemma toArray_flat (children : value) (entries : list value) :
  toArray children = Return (VArray entries) ->
  Forall (fun v => flatEntry v = true) entries.
Proof.
  rewrite toArray_walk. destruct (invalidChildren children); [|discriminate].
  intro H. injection H as <-. apply entriesOf_flat, events_visit_leaves.
Qed.

(** X10.  What [toArray] returns is made of leaves that are not null, so it
    can be traversed again: [countChildren] of it is its length, and
    [toArray] of it has the same entries in the same order, up to the keys
    of the elements. *)
Theorem toArray_again (children : value) (entries : list value) :
  toArray children = Return (VArray entries) ->
  Forall (fun v => flatEntry v = true) entries /\
  countChildren (VArray entries) = Return (length entries) /\
  exists entries',
    toArray (VArray entries) = Return (VArray entries') /\
    Forall2 entryOf entries entries'.
Proof.
  intro H. pose proof (toArray_flat _ _ H) as Hflat.
  destruct (flat_leaves _ Hflat) as [Hl Hi].
  split; [exact Hflat|]. split.
  - change (countChildren (VArray entries))
      with (forEachChildren (VArray entries) (fun _ _ _ n => S n) VUndefined 0).
    rewrite forEachChildren_walk. cbn [invalidChildren]. rewrite Hi.
    unfold visited, indexed. cbn [looseNull leaves]. rewrite Hl.
    now rewrite fold_callAt_count.
  - exists (entriesOf EmptyString (events (VArray entries) EmptyString)).
    split.
    + rewrite toArray_walk. cbn [invalidChildren]. now rewrite Hi.
    + assert (E : filter notNull
                    (visitedOf (events (VArray entries) EmptyString)) =
                  entries).
      { rewrite events_visited. cbn [leaves]. rewrite Hl.
        apply filter_all. eapply Forall_impl; [|exact Hflat].
        intros v Hv. unfold flatEntry in Hv. unfold notNull.
        destruct v; try discriminate; reflexivity. }
      rewrite <- E at 1. apply entriesOf_entryOf.
Qed.

Lemma toArray_again_witness :
  let children := VArray [leafA; VNull; VArray [VString "b"]] in
  toArray children =
    Return (VArray [cloneAndReplaceKey leafA ".$x"; VString "b"]) /\
  countChildren (VArray [cloneAndReplaceKey leafA ".$x"; VString "b"]) =
    Return 2.
Proof.
  intro children. split; [reflexivity|].
  exact (proj1 (proj2 (toArray_again children _ eq_refl))).
Defined.

(** X11.  The public operations always return or throw: the calls of the
    flattener on the arrays that a function returned never nest, because
    [c => c] returns no array for a leaf; a greater bound on their nesting
    changes nothing. *)
Theorem public_operations_finish :
  (forall (State : Type) children (func : MapFunc State) ctx st,
     mapChildren children func ctx st <> OutOfFuel) /\
  (forall (State : Type) children (fn : ForEachFunc State) ctx st,
     forEachChildren children fn ctx st <> OutOfFuel) /\
  (forall children, countChildren children <> OutOfFuel) /\
  (forall children, toArray children <> OutOfFuel) /\
  (forall (State : Type) n children array escapedPrefix nameSoFar
          (callback : Callback State) st,
     mapIntoArray (nestingBound + n) children array escapedPrefix nameSoFar
       callback st =
     mapIntoArray nestingBound children array escapedPrefix nameSoFar
       callback st).
Proof.
  assert (Hmap : forall (State : Type) children (func : MapFunc State) ctx st,
            mapChildren children func ctx st <> OutOfFuel).
  { intros State children func ctx st.
    destruct (looseNull children) eqn:Hnn.
    - unfold mapChildren. rewrite Hnn. discriminate.
    - rewrite mapChildren_run by assumption.
      destruct (run_outcome 0 (counting func ctx) EmptyString
                  (events children EmptyString) [] (0, st))
        as [[_ [[a s] Hr]]|[o [Ht _]]]; rewrite ?Hr, ?Ht; discriminate. }
  assert (Heach : forall (State : Type) children (fn : ForEachFunc State)
                         ctx st,
            forEachChildren children fn ctx st <> OutOfFuel).
  { intros State children fn ctx st. rewrite forEachChildren_walk.
    destruct (invalidChildren children); discriminate. }
  split; [exact Hmap|]. split; [exact Heach|]. split; [|split].
  - intro children. apply (Heach nat).
  - intro children. rewrite toArray_walk.
    destruct (invalidChildren children); discriminate.
  - intros State n children array pre name cb st. unfold nestingBound.
    cbn [Nat.add]. rewrite !mapIntoArray_run. now rewrite run_nesting.
Qed.

(* ================================================================== *)
(** ** The flattener only appends *)
(* ================================================================== *)

Lemma emit_frame {State : Type} n
    (Hn : forall children array pre name (cb : Callback State) st,
        mapIntoArray n children array pre name cb st =
        let* (k, added, st') := mapIntoArray n children [] pre name cb st in
        Return (k, (array ++ added)%list, st'))
    pre child childKey m array (st : State) :
  emit n pre child childKey m array st =
  framed array (emit n pre child childKey m [] st).
Proof.
  unfold emit, framed. destruct (isArray m).
  - rewrite Hn.
    destruct (mapIntoArray n m [] (escapeUserProvidedKey childKey ++ "/")
                EmptyString identity st) as [[[k a] s]| |]; reflexivity.
  - destruct (negb (looseNull m)); cbn [bind]; unfold push;
      now rewrite ?app_nil_r.
Qed.

Lemma run_frame {State : Type} n
    (Hn : forall children array pre name (cb : Callback State) st,
        mapIntoArray n children array pre name cb st =
        let* (k, added, st') := mapIntoArray n children [] pre name cb st in
        Return (k, (array ++ added)%list, st'))
    (cb : Callback State) pre es :
  forall array st,
    run n cb pre es array st = framed array (run n cb pre es [] st).
Proof.
  induction es as [|[child childKey|object] es IH]; intros array st.
  - cbn. now rewrite app_nil_r.
  - cbn [run]. destruct (cb child st) as [m st1].
    rewrite (emit_frame n Hn pre child childKey m array st1).
    unfold framed at 1.
    destruct (emit n pre child childKey m [] st1) as [[a s]| |];
      cbn [bind]; try reflexivity.
    rewrite (IH (array ++ a)%list s), (IH a s). unfold framed.
    destruct (run n cb pre es [] s) as [[a' s']| |]; cbn [bind];
      try reflexivity.
    now rewrite app_assoc.
  - reflexivity.
Qed.

Lemma mapIntoArray_frame_at {State : Type} n :
  forall children array pre name (cb : Callback State) st,
    mapIntoArray n children array pre name cb st =
    let* (k, added, st') := mapIntoArray n children [] pre name cb st in
    Return (k, (array ++ added)%list, st').
Proof.
  induction n as [|n IH]; intros children array pre name cb st.
  - reflexivity.
  - rewrite !mapIntoArray_run.
    rewrite (run_frame n IH cb pre (events children name) array st).
    unfold framed.
    destruct (run n cb pre (events children name) [] st) as [[a s]| |];
      reflexivity.
Qed.

(** X14.  The flattener only appends to the array it is given, and what it
    appends, what it returns and what it throws do not depend on what the
    array held; the count it returns is the number of leaves of the
    children, however many values have been appended. *)
Theorem mapIntoArray_frame {State : Type} (n : nat) (children : value)
    (array : list value) (escapedPrefix nameSoFar : string)
    (callback : Callback State) (st : State) :
  mapIntoArray n children array escapedPrefix nameSoFar callback st =
  (let* (count, added, st') :=
     mapIntoArray n children [] escapedPrefix nameSoFar callback st in
   Return (count, (array ++ added)%list, st')) /\
  (forall count array' st',
     mapIntoArray n children array escapedPrefix nameSoFar callback st =
     Return (count, array', st') ->
     count = length (leaves children)).
Proof.
  split; [apply mapIntoArray_frame_at|].
  intros count array' st'. destruct n as [|n]; [discriminate|].
  rewrite mapIntoArray_run.
  destruct (run n callback escapedPrefix (events children nameSoFar) array st)
    as [[a s]| |]; try discriminate.
  cbn [bind]. intro H. injection H as <- _ _.
  unfold visits. now rewrite events_visited.
Qed.

Lemma mapIntoArray_frame_witness :
  let callback := fun (c : value) (st : nat) => (VArray [c; c], S st) in
  mapIntoArray 2 (VArray [VString "a"; VNull]) [VNumber 1] EmptyString
    EmptyString callback 0 =
    Return (2, [VNumber 1; VString "a"; VString "a"], 2) /\
  2 = length (leaves (VArray [VString "a"; VNull])).
Proof.
  intro callback. split; [reflexivity|].
  exact (proj2 (mapIntoArray_frame 2 (VArray [VString "a"; VNull]) [VNumber 1]
                  EmptyString EmptyString callback 0) _ _ _ eq_refl).
Defined.

(* ================================================================== *)
(** ** memo *)
(* ================================================================== *)

